(** * ipynb-ast: MIME classification/selection and the tree walker

    A shallow embedding of the MIME utilities ([mime-types]:
    classification, priority lookup, best-representation selection,
    payload normalisation) and of the tree walker ([transformer]: visit,
    findAll, transform, filter), with the properties the specification
    states about them.

    Parts I and II hold the definitions: the code as it is written, then
    the few definitions the statements need.  Parts III and IV hold the
    properties. *)

From Stdlib Require Import ZArith Bool Lia Ascii.
From stdpp Require Import gmap strings list fin_maps.

(* ===================================================================== *)
(** * Part I: MIME types *)
(* ===================================================================== *)

Module Mime.

Local Open Scope string_scope.

(** ** JavaScript string primitives used by the source

    Strings are sequences of code units; [startsWith], [endsWith] and
    [Array.prototype.includes] on strings compare code units one by one. *)

(** [s.startsWith(p)] *)
Definition startsWith (s p : string) : bool := String.prefix p s.

(** [s.endsWith(p)]: the last [length p] code units of [s] are [p]. *)
Definition endsWith (s p : string) : bool :=
  (String.length p <=? String.length s)%nat &&
  String.eqb
    (String.substring (String.length s - String.length p) (String.length p) s) p.

(** [arr.includes(x)] for an array of strings. *)
Definition includes (arr : list string) (x : string) : bool :=
  existsb (String.eqb x) arr.

(** ** MIME type constants *)

Module TEXT_MIME_TYPES.
Definition PLAIN := "text/plain".
Definition HTML := "text/html".
Definition MARKDOWN := "text/markdown".
Definition LATEX := "text/latex".
Definition CSV := "text/csv".
Definition XML := "text/xml".
End TEXT_MIME_TYPES.

Module IMAGE_MIME_TYPES.
Definition PNG := "image/png".
Definition JPEG := "image/jpeg".
Definition GIF := "image/gif".
Definition SVG := "image/svg+xml".
Definition BMP := "image/bmp".
Definition WEBP := "image/webp".
End IMAGE_MIME_TYPES.

Module APPLICATION_MIME_TYPES.
Definition JSON := "application/json".
Definition JAVASCRIPT := "application/javascript".
Definition PDF := "application/pdf".
Definition GEOJSON := "application/geo+json".
Definition XML := "application/xml".
End APPLICATION_MIME_TYPES.

Module JUPYTER_MIME_TYPES.
Definition WIDGET_VIEW := "application/vnd.jupyter.widget-view+json".
Definition WIDGET_STATE := "application/vnd.jupyter.widget-state+json".
Definition ERROR := "application/vnd.jupyter.error".
Definition STDIN := "application/vnd.jupyter.stdin".
End JUPYTER_MIME_TYPES.

Module VISUALIZATION_MIME_TYPES.
Definition PLOTLY_V1 := "application/vnd.plotly.v1+json".
Definition VEGA_V2 := "application/vnd.vega.v2+json".
Definition VEGA_V3 := "application/vnd.vega.v3+json".
Definition VEGA_V4 := "application/vnd.vega.v4+json".
Definition VEGA_V5 := "application/vnd.vega.v5+json".
Definition VEGALITE_V1 := "application/vnd.vegalite.v1+json".
Definition VEGALITE_V2 := "application/vnd.vegalite.v2+json".
Definition VEGALITE_V3 := "application/vnd.vegalite.v3+json".
Definition VEGALITE_V4 := "application/vnd.vegalite.v4+json".
Definition VEGALITE_V5 := "application/vnd.vegalite.v5+json".
Definition BOKEH := "application/vnd.bokehjs_exec.v0+json".
Definition HOLOVIEWS_EXEC := "application/vnd.holoviews_exec.v0+json".
Definition HOLOVIEWS_LOAD := "application/vnd.holoviews_load.v0+json".
End VISUALIZATION_MIME_TYPES.

(** ** MIME type categories (the fixed lists) *)

Definition TEXT_CONTENT_TYPES : list string :=
  [ TEXT_MIME_TYPES.PLAIN; TEXT_MIME_TYPES.HTML; TEXT_MIME_TYPES.MARKDOWN;
    TEXT_MIME_TYPES.LATEX; TEXT_MIME_TYPES.CSV; TEXT_MIME_TYPES.XML;
    APPLICATION_MIME_TYPES.JAVASCRIPT; IMAGE_MIME_TYPES.SVG ].

Definition BINARY_CONTENT_TYPES : list string :=
  [ IMAGE_MIME_TYPES.PNG; IMAGE_MIME_TYPES.JPEG; IMAGE_MIME_TYPES.GIF;
    IMAGE_MIME_TYPES.BMP; IMAGE_MIME_TYPES.WEBP; APPLICATION_MIME_TYPES.PDF ].

Definition JSON_CONTENT_TYPES : list string :=
  [ APPLICATION_MIME_TYPES.JSON; APPLICATION_MIME_TYPES.GEOJSON;
    JUPYTER_MIME_TYPES.WIDGET_VIEW; JUPYTER_MIME_TYPES.WIDGET_STATE;
    VISUALIZATION_MIME_TYPES.PLOTLY_V1;
    VISUALIZATION_MIME_TYPES.VEGA_V2; VISUALIZATION_MIME_TYPES.VEGA_V3;
    VISUALIZATION_MIME_TYPES.VEGA_V4; VISUALIZATION_MIME_TYPES.VEGA_V5;
    VISUALIZATION_MIME_TYPES.VEGALITE_V1; VISUALIZATION_MIME_TYPES.VEGALITE_V2;
    VISUALIZATION_MIME_TYPES.VEGALITE_V3; VISUALIZATION_MIME_TYPES.VEGALITE_V4;
    VISUALIZATION_MIME_TYPES.VEGALITE_V5;
    VISUALIZATION_MIME_TYPES.BOKEH;
    VISUALIZATION_MIME_TYPES.HOLOVIEWS_EXEC;
    VISUALIZATION_MIME_TYPES.HOLOVIEWS_LOAD ].

Definition IMAGE_CONTENT_TYPES : list string :=
  [ IMAGE_MIME_TYPES.PNG; IMAGE_MIME_TYPES.JPEG; IMAGE_MIME_TYPES.GIF;
    IMAGE_MIME_TYPES.SVG; IMAGE_MIME_TYPES.BMP; IMAGE_MIME_TYPES.WEBP ].

(** ** MIME type utilities *)

Definition isTextMimeType (mimeType : string) : bool :=
  includes TEXT_CONTENT_TYPES mimeType.

Definition isBinaryMimeType (mimeType : string) : bool :=
  includes BINARY_CONTENT_TYPES mimeType.

Definition isJsonMimeType (mimeType : string) : bool :=
  includes JSON_CONTENT_TYPES mimeType || endsWith mimeType "+json".

Definition isImageMimeType (mimeType : string) : bool :=
  includes IMAGE_CONTENT_TYPES mimeType || startsWith mimeType "image/".

Definition isWidgetMimeType (mimeType : string) : bool :=
  String.eqb mimeType JUPYTER_MIME_TYPES.WIDGET_VIEW ||
  String.eqb mimeType JUPYTER_MIME_TYPES.WIDGET_STATE.

Definition isVisualizationMimeType (mimeType : string) : bool :=
  startsWith mimeType "application/vnd.plotly." ||
  startsWith mimeType "application/vnd.vega." ||
  startsWith mimeType "application/vnd.vegalite." ||
  startsWith mimeType "application/vnd.bokehjs" ||
  startsWith mimeType "application/vnd.holoviews".

Inductive Category :=
  | text | binary | json | image | widget | visualization | unknown.

#[global] Instance Category_eq_dec : EqDecision Category.
Proof. solve_decision. Defined.

Definition getMimeTypeCategory (mimeType : string) : Category :=
  if isWidgetMimeType mimeType then widget
  else if isVisualizationMimeType mimeType then visualization
  else if isImageMimeType mimeType then image
  else if isJsonMimeType mimeType then json
  else if isBinaryMimeType mimeType then binary
  else if isTextMimeType mimeType then text
  else unknown.

(** The precedence as the specification words it: an ordered table of
    (structural test, category), the first passing test decides, and
    [unknown] is the answer when no test passes. *)
Definition category_precedence : list ((string -> bool) * Category) :=
  [ (isWidgetMimeType, widget);
    (isVisualizationMimeType, visualization);
    (isImageMimeType, image);
    (isJsonMimeType, json);
    (isBinaryMimeType, binary);
    (isTextMimeType, text) ].

Fixpoint first_match (tests : list ((string -> bool) * Category))
    (mimeType : string) : Category :=
  match tests with
  | [] => unknown
  | (test, c) :: rest => if test mimeType then c else first_match rest mimeType
  end.

(** ** Priority table and lookup *)

Local Open Scope Z_scope.

(** Own properties of the object literal [MIME_TYPE_PRIORITY], in source
    order. *)
Definition MIME_TYPE_PRIORITY : list (string * Z) :=
  [ (TEXT_MIME_TYPES.HTML, 100);
    (JUPYTER_MIME_TYPES.WIDGET_VIEW, 95);
    (VISUALIZATION_MIME_TYPES.PLOTLY_V1, 90);
    (VISUALIZATION_MIME_TYPES.VEGALITE_V5, 88);
    (VISUALIZATION_MIME_TYPES.VEGALITE_V4, 87);
    (VISUALIZATION_MIME_TYPES.VEGALITE_V3, 86);
    (VISUALIZATION_MIME_TYPES.VEGALITE_V2, 85);
    (VISUALIZATION_MIME_TYPES.VEGALITE_V1, 84);
    (VISUALIZATION_MIME_TYPES.VEGA_V5, 83);
    (VISUALIZATION_MIME_TYPES.VEGA_V4, 82);
    (VISUALIZATION_MIME_TYPES.VEGA_V3, 81);
    (VISUALIZATION_MIME_TYPES.VEGA_V2, 80);
    (IMAGE_MIME_TYPES.SVG, 75);
    (IMAGE_MIME_TYPES.PNG, 70);
    (IMAGE_MIME_TYPES.JPEG, 65);
    (IMAGE_MIME_TYPES.WEBP, 64);
    (IMAGE_MIME_TYPES.GIF, 63);
    (IMAGE_MIME_TYPES.BMP, 60);
    (TEXT_MIME_TYPES.MARKDOWN, 55);
    (TEXT_MIME_TYPES.LATEX, 50);
    (APPLICATION_MIME_TYPES.JSON, 45);
    (APPLICATION_MIME_TYPES.GEOJSON, 44);
    (APPLICATION_MIME_TYPES.JAVASCRIPT, 40);
    (TEXT_MIME_TYPES.PLAIN, 10) ].

(** The table is an ordinary object literal, so a property read
    [MIME_TYPE_PRIORITY[key]] that finds no own property continues on
    [Object.prototype].  These are its property names. *)
Definition OBJECT_PROTOTYPE_KEYS : list string :=
  [ "constructor"; "__defineGetter__"; "__defineSetter__"; "hasOwnProperty";
    "__lookupGetter__"; "__lookupSetter__"; "isPrototypeOf";
    "propertyIsEnumerable"; "toString"; "valueOf"; "__proto__";
    "toLocaleString" ]%string.

(** What a read of the table can produce: a number (own property), a
    member of [Object.prototype] (a built-in function, or the prototype
    object itself for [__proto__]), or [undefined]. *)
Inductive JsValue :=
  | JsNumber (z : Z)
  | JsInherited (name : string)
  | JsUndefined.

Fixpoint own_property (table : list (string * Z)) (key : string) : option Z :=
  match table with
  | [] => None
  | (k, v) :: rest => if String.eqb k key then Some v else own_property rest key
  end.

(** [obj[key]] *)
Definition get_property (table : list (string * Z)) (key : string) : JsValue :=
  match own_property table key with
  | Some z => JsNumber z
  | None => if includes OBJECT_PROTOTYPE_KEYS key then JsInherited key
            else JsUndefined
  end.

(** [v ?? d]: only [undefined] (and [null]) give way to the default. *)
Definition nullish (v d : JsValue) : JsValue :=
  match v with JsUndefined => d | _ => v end.

Definition getMimeTypePriority (mimeType : string) : JsValue :=
  nullish (get_property MIME_TYPE_PRIORITY mimeType) (JsNumber 0).

Section Select.

(** The string a member of [Object.prototype] converts to under
    [ToPrimitive]; its exact text is the host's ([function f() { [native
    code] }], [[object Object]]) and never reads as a number. *)
Variable host_text : string -> string.

(** [a > b].  Two numbers compare numerically.  A number against an
    inherited member compares against [NaN] (the member's text is not
    numeric) and is false; so is anything against [undefined].  Two
    inherited members compare their texts as strings. *)
Definition js_gt (a b : JsValue) : bool :=
  match a, b with
  | JsNumber x, JsNumber y => y <? x
  | JsInherited f, JsInherited g => String.ltb (host_text g) (host_text f)
  | _, _ => false
  end.

(** [arr.reduce(f)] without an initial value, on a non-empty array: the
    accumulator starts as the first element. *)
Definition reduce1 {A} (f : A -> A -> A) (first : A) (rest : list A) : A :=
  fold_left f rest first.

Definition selectBestMimeType (mimeTypes : list string) : option string :=
  match mimeTypes with
  | [] => None
  | [only] => Some only
  | first :: rest =>
      Some (reduce1
              (fun best current =>
                 let bestPriority := getMimeTypePriority best in
                 let currentPriority := getMimeTypePriority current in
                 if js_gt currentPriority bestPriority then current else best)
              first rest)
  end.

End Select.

(** ** Payload normalisation *)

(** A bundle payload: a string, an array of string fragments, or any
    other (non-array) JSON value, kept opaque by its serialisation. *)
Inductive MimeData :=
  | DataString (s : string)
  | DataArray (fragments : list string)
  | DataOther (json : string).

(** [Array.isArray(data)] *)
Definition isArray (data : MimeData) : bool :=
  match data with DataArray _ => true | _ => false end.

(** [fragments.join('')] *)
Definition join_empty (fragments : list string) : string :=
  String.concat "" fragments.

Definition normalizeMimeData (mimeType : string) (data : MimeData) : MimeData :=
  if isTextMimeType mimeType && isArray data then
    match data with
    | DataArray fragments => DataString (join_empty fragments)
    | _ => data
    end
  else data.

(** ** Definitions used by the properties *)

(** The score the specification gives an identifier: its entry in the
    table, 0 when it has none. *)
Definition table_score (mimeType : string) : Z :=
  default 0 (own_property MIME_TYPE_PRIORITY mimeType).

(** The reducer [selectBestMimeType] hands to [reduce]. *)
Definition better (host_text : string -> string) (best current : string)
    : string :=
  let bestPriority := getMimeTypePriority best in
  let currentPriority := getMimeTypePriority current in
  if js_gt host_text currentPriority bestPriority then current else best.

End Mime.

(* ===================================================================== *)
(** * Part II: the tree walker *)
(* ===================================================================== *)

Module Walker.

(** ** Nodes as objects in a store

    A node is a JavaScript object, so it has an identity ([loc]) apart
    from its contents.  The walker looks only at the discriminant, at
    whether the node has a [children] array, and copies the remaining own
    properties wholesale in [filter].

    A children array is kept by value inside its node: the walker never
    shares an array between two nodes and replaces a node's array rather
    than updating it in place, and callbacks are taken to do the same.
    [await] makes every callback finish before the walker goes on, so a
    callback is a function from the state before to the state after. *)

Definition loc := positive.

Record Node := mkNode {
  type : string;
  (** remaining own properties ([value], [cellType], [metadata], ...) *)
  props : list (string * string);
  (** [Some cs] when ['children' in node && Array.isArray(node.children)] *)
  children : option (list loc);
}.

Abbreviation heap := (gmap loc Node).

(** ** Trees held by a store *)

#[warnings="-register-all"]
Inductive Tree :=
  TreeNode (l : loc) (ty : string) (ps : list (string * string))
           (kids : option (list Tree)).

Definition root (t : Tree) : loc :=
  match t with TreeNode l _ _ _ => l end.

Definition kid_roots (kids : option (list Tree)) : option (list loc) :=
  match kids with None => None | Some ts => Some (map root ts) end.

(** [repr h t]: the store [h] holds the tree [t] at [root t]. *)
#[warnings="-register-all"]
Inductive repr (h : heap) : Tree -> Prop :=
  | repr_node l ty ps kids :
      h !! l = Some (mkNode ty ps (kid_roots kids)) ->
      Forall (repr h) (default [] kids) ->
      repr h (TreeNode l ty ps kids).

Fixpoint height (t : Tree) : nat :=
  match t with
  | TreeNode _ _ _ kids =>
      S (match kids with
         | None => 0
         | Some ts => foldr (fun t' m => max (height t') m) 0 ts
         end)
  end.

(** Deep equality compares contents and forgets identities. *)
#[warnings="-register-all"]
Inductive Shape :=
  ShapeNode (ty : string) (ps : list (string * string))
            (kids : option (list Shape)).

Fixpoint erase (t : Tree) : Shape :=
  match t with
  | TreeNode _ ty ps kids =>
      ShapeNode ty ps
        (match kids with None => None | Some ts => Some (map erase ts) end)
  end.

Definition deep_equal (t1 t2 : Tree) : Prop := erase t1 = erase t2.

(** ** Callbacks *)

(** The arguments of one callback invocation. *)
Record Call := mkCall {
  c_node : loc;
  c_index : option nat;
  c_parent : option loc;
}.

(** A visitor inspects the tree and carries its own state; its result is
    [void | boolean] ([None] is [undefined]). *)
Definition Visitor (St : Type) : Type :=
  St -> heap -> loc -> option nat -> option loc -> St * option bool.

(** [result === false] *)
Definition is_false (result : option bool) : bool :=
  match result with Some false => true | _ => false end.

(** A transformer may change the store and return a node or nothing. *)
Definition Transformer : Type :=
  heap -> loc -> option nat -> option loc -> heap * option loc.

(** A filter predicate inspects the tree and carries its own state. *)
Definition Predicate (St : Type) : Type :=
  St -> heap -> loc -> option nat -> option loc -> St * bool.

(** [options.reverse ? Array.from({length: n}, (_, i) => n - 1 - i)
                     : Array.from({length: n}, (_, i) => i)] *)
Definition indices (reverse : bool) (n : nat) : list nat :=
  if reverse then map (fun i => n - 1 - i) (seq 0 n) else seq 0 n.

(** ** visit *)

Section Visit.
Context {St : Type}.
Variable h : heap.
Variable visitor : Visitor St.
Variable reverse : bool.

(** The [for (const i of indices)] loop of [visitNode]. *)
Fixpoint visit_children
    (visitNode : St -> loc -> option nat -> option loc -> option (St * bool))
    (children : list loc) (node : loc) (s : St) (idxs : list nat)
    : option (St * bool) :=
  match idxs with
  | [] => Some (s, true)
  | i :: rest =>
      child ← children !! i;
      '(s', shouldContinue) ← visitNode s child (Some i) (Some node);
      if negb shouldContinue then Some (s', false)
      else visit_children visitNode children node s' rest
  end.

(** [None]: the recursion budget ran out, or a reference dangles. *)
Fixpoint visitNode (fuel : nat) (s : St) (node : loc)
    (index : option nat) (parent : option loc) : option (St * bool) :=
  match fuel with
  | O => None
  | S fuel' =>
      let '(s1, result) := visitor s h node index parent in
      if is_false result then Some (s1, false)
      else
        o ← h !! node;
        match children o with
        | Some children =>
            visit_children (visitNode fuel') children node s1
              (indices reverse (length children))
        | None => Some (s1, true)
        end
  end.

Definition visit (fuel : nat) (s : St) (tree : loc) : option St :=
  fst <$> visitNode fuel s tree None None.
End Visit.

(** ** findAll *)

Definition findAll {St} (fuel : nat) (h : heap)
    (predicate : St -> heap -> loc -> St * bool) (s : St) (tree : loc)
    : option (St * list loc) :=
  visit h
    (fun '(s, results) h node _ _ =>
       let '(s', found) := predicate s h node in
       ((s', if found then results ++ [node] else results), None))
    false fuel (s, []) tree.

(** ** transform *)

(** [arr[k] = v] on an array under construction; [None] is a hole. *)
Definition array_set (arr : list (option loc)) (k : nat) (v : loc)
    : list (option loc) :=
  if (k <? length arr)%nat then <[k := Some v]> arr
  else arr ++ replicate (k - length arr) None ++ [Some v].

Definition set_children (cs : list loc) (o : Node) : Node :=
  mkNode (type o) (props o) (Some cs).

Section Transform.
Variable transformer : Transformer.
Variable reverse : bool.

(** The [for (const i of indices)] loop of [transformNode]. *)
Fixpoint transform_children
    (transformNode : heap -> loc -> option nat -> option loc -> option (heap * loc))
    (children : list loc) (node : loc) (h : heap)
    (newChildren : list (option loc)) (idxs : list nat)
    : option (heap * list (option loc)) :=
  match idxs with
  | [] => Some (h, newChildren)
  | i :: rest =>
      child ← children !! i;
      '(h', transformed) ← transformNode h child (Some i) (Some node);
      transform_children transformNode children node h'
        (array_set newChildren
           (if reverse then length children - 1 - i else i) transformed)
        rest
  end.

Fixpoint transformNode (fuel : nat) (h : heap) (node : loc)
    (index : option nat) (parent : option loc) : option (heap * loc) :=
  match fuel with
  | O => None
  | S fuel' =>
      o ← h !! node;
      h2 ← match children o with
           | Some children =>
               '(h1, newChildren) ←
                 transform_children (transformNode fuel') children node h []
                   (indices reverse (length children));
               dense ← mapM id newChildren;
               Some (alter (set_children dense) node h1)
           | None => Some h
           end;
      let '(h3, result) := transformer h2 node index parent in
      Some (h3, default node result)
  end.

Definition transform (fuel : nat) (h : heap) (tree : loc)
    : option (heap * loc) :=
  transformNode fuel h tree None None.
End Transform.

(** A transformer that returns its input node unchanged. *)
Definition identity : Transformer := fun h node _ _ => (h, Some node).

(** ** filter *)

Section Filter.
Context {St : Type}.
Variable predicate : Predicate St.

(** The [for (let i = 0; i < children.length; i++)] loop of
    [filterNode]. *)
Fixpoint filter_children
    (filterNode : heap -> St -> loc -> option nat -> option loc
                  -> option (heap * St * option loc))
    (children : list loc) (node : loc) (h : heap) (s : St)
    (filtered : list loc) (idxs : list nat)
    : option (heap * St * list loc) :=
  match idxs with
  | [] => Some (h, s, filtered)
  | i :: rest =>
      child ← children !! i;
      '(h', s', result) ← filterNode h s child (Some i) (Some node);
      filter_children filterNode children node h' s'
        (match result with Some r => filtered ++ [r] | None => filtered end)
        rest
  end.

(** The result [None] inside [Some] is JavaScript's [null]. *)
Fixpoint filterNode (fuel : nat) (h : heap) (s : St) (node : loc)
    (index : option nat) (parent : option loc)
    : option (heap * St * option loc) :=
  match fuel with
  | O => None
  | S fuel' =>
      let '(s1, keep) := predicate s h node index parent in
      if negb keep then Some (h, s1, None)
      else
        o ← h !! node;
        match children o with
        | Some children =>
            '(h1, s2, filtered) ←
              filter_children (filterNode fuel') children node h s1 []
                (seq 0 (length children));
            (* { ...node, children: filtered } is a new object *)
            o' ← h1 !! node;
            let fresh_loc := fresh (dom h1) in
            Some (<[fresh_loc := set_children filtered o']> h1, s2,
                  Some fresh_loc)
        | None => Some (h, s1, Some node)
        end
  end.

Definition filter (fuel : nat) (h : heap) (s : St) (tree : loc)
    : option (heap * St * loc) :=
  '(h', s', result) ← filterNode fuel h s tree None None;
  Some (h', s', default tree result).
End Filter.

(** ** Pre-order enumeration of a tree *)

(** List reversal, under a name that the [reverse] option does not hide. *)
Abbreviation reversed := (@list.reverse _).

Section Preorder.
Variable reverse : bool.

Section Kids.
Variable calls_of : Tree -> option nat -> option loc -> list Call.
Variable parent : loc.

(** The calls below each child, by position in the children array. *)
Fixpoint below_kids (i : nat) (ts : list Tree) : list (list Call) :=
  match ts with
  | [] => []
  | t :: ts' => calls_of t (Some i) (Some parent) :: below_kids (S i) ts'
  end.
End Kids.

(** A node comes before everything below it; the children come in
    array order, or in reverse array order when [reverse] is set, each
    with its own position in the array. *)
Fixpoint preorder (t : Tree) (index : option nat) (parent : option loc)
    : list Call :=
  match t with
  | TreeNode l _ _ kids =>
      mkCall l index parent ::
      match kids with
      | None => []
      | Some ts =>
          let below := below_kids preorder l 0 ts in
          concat (if reverse then reversed below else below)
      end
  end.
End Preorder.

(** ** What the specification says a visit does *)

Section VisitSpec.
Context {St : Type}.
Variable visitor : Visitor St.
Variable h : heap.

(** Invoke the visitor on the calls one after the other and stop right
    after the first invocation that returns [false]; the result is the
    visitor's final state and whether the end was reached. *)
Fixpoint run_calls (s : St) (calls : list Call) : St * bool :=
  match calls with
  | [] => (s, true)
  | c :: rest =>
      let '(s1, result) := visitor s h (c_node c) (c_index c) (c_parent c) in
      if is_false result then (s1, false) else run_calls s1 rest
  end.

(** The same, keeping the invocations made, each with its result. *)
Fixpoint invocations (s : St) (calls : list Call)
    : St * list (Call * option bool) :=
  match calls with
  | [] => (s, [])
  | c :: rest =>
      let '(s1, result) := visitor s h (c_node c) (c_index c) (c_parent c) in
      if is_false result then (s1, [(c, result)])
      else let '(s2, made) := invocations s1 rest in (s2, (c, result) :: made)
  end.
End VisitSpec.

(** A visitor wrapped so that every invocation it receives is recorded
    together with the result it returned. *)
Definition traced {St} (visitor : Visitor St)
    : Visitor (St * list (Call * option bool)) :=
  fun '(s, log) h node index parent =>
    let '(s', result) := visitor s h node index parent in
    ((s', log ++ [(mkCall node index parent, result)]), result).

(** Run a (stateful) predicate over every node of a list in order and
    keep the nodes it accepts. *)
Fixpoint select {St} (predicate : St -> heap -> loc -> St * bool) (h : heap)
    (s : St) (nodes : list loc) : St * list loc :=
  match nodes with
  | [] => (s, [])
  | n :: rest =>
      let '(s1, found) := predicate s h n in
      let '(s2, kept) := select predicate h s1 rest in
      (s2, if found then n :: kept else kept)
  end.

(** ** Definitions used by the properties *)

(** The objects of a tree. *)
Fixpoint locs (t : Tree) : list loc :=
  match t with
  | TreeNode l _ _ kids =>
      l :: match kids with
           | None => []
           | Some ts => mjoin (map locs ts)
           end
  end.

(** The tree with every children array reversed. *)
Fixpoint mirror (t : Tree) : Tree :=
  match t with
  | TreeNode l ty ps kids =>
      TreeNode l ty ps
        (match kids with
         | None => None
         | Some ts => Some (reversed (map mirror ts))
         end)
  end.

(** What [transformNode], with the identity and [reverse] requested, does
    to one subtree whose objects are all distinct. *)
Definition mirrored (fuel : nat) (t : Tree) : Prop :=
  forall (h : heap) index parent,
    repr h t ->
    NoDup (locs t) ->
    exists h' : heap,
      transformNode identity true fuel h (root t) index parent
        = Some (h', root t) /\
      repr h' (mirror t) /\
      forall l, l ∉ locs t -> h' !! l = h !! l.

(** What [filterNode] does to one subtree when every node is accepted:
    it returns a tree of the same shape in a store that extends the old
    one; a node with a children array is a new object, a leaf is itself. *)
Definition copied {St} (predicate : Predicate St) (fuel : nat) (t : Tree)
    : Prop :=
  forall (h : heap) (s : St) index parent,
    repr h t ->
    height t <= fuel ->
    exists (h' : heap) (s' : St) (t' : Tree),
      filterNode predicate fuel h s (root t) index parent
        = Some (h', s', Some (root t')) /\
      h ⊆ h' /\
      repr h' t' /\
      erase t' = erase t /\
      match t with
      | TreeNode _ _ _ (Some _) => root t' ∉ dom h
      | TreeNode _ _ _ None => t' = t
      end.

(** ** Sample stores *)

Definition always (b : bool) : Predicate unit := fun s _ _ _ _ => (s, b).

(** A single raw-content leaf. *)
Definition leaf_tree : Tree := TreeNode 1%positive "raw" [("value", "x")] None.
Definition leaf_store : heap := {[ 1%positive := mkNode "raw" [("value", "x")] None ]}.

(** A code cell with its code and one output. *)
Definition cell_tree : Tree :=
  TreeNode 1%positive "cell" [("cellType", "code")]
    (Some [ TreeNode 2%positive "code" [("value", "1+1")] None;
            TreeNode 3%positive "executeResult" [] None ]).
Definition cell_store : heap :=
  {[ 1%positive := mkNode "cell" [("cellType", "code")] (Some [2; 3]%positive);
     2%positive := mkNode "code" [("value", "1+1")] None;
     3%positive := mkNode "executeResult" [] None ]}.

(** A visitor that counts its invocations and stops at code nodes. *)
Definition stop_at_code : Visitor nat :=
  fun count h node _ _ =>
    (S count,
     match h !! node with
     | Some o => if String.eqb (type o) "code" then Some false else None
     | None => None
     end).

End Walker.

(* ===================================================================== *)
(** * Part II, continued: the rest of the MIME utilities *)
(* ===================================================================== *)

Module MimeMore.
Import Mime.

Local Open Scope string_scope.

(** ** Object literals and spread *)

(** An object literal as its own properties, in creation order. *)
Definition JsObject : Type := list (string * string).

(** [o[k] = v] while the object is being built: an existing property
    keeps its place and takes the new value, a new one goes last. *)
Fixpoint set_own (o : JsObject) (k v : string) : JsObject :=
  match o with
  | [] => [(k, v)]
  | (k', v') :: rest =>
      if String.eqb k' k then (k', v) :: rest
      else (k', v') :: set_own rest k v
  end.

(** [{ ...target, ...source }] *)
Definition spread (target source : JsObject) : JsObject :=
  fold_left (fun o kv => set_own o (fst kv) (snd kv)) source target.

(** [Object.values(o)] *)
Definition Object_values (o : JsObject) : list string := map snd o.

(** The five constant tables with their property names. *)
Definition TEXT_MIME_TYPES_OBJECT : JsObject :=
  [ ("PLAIN", TEXT_MIME_TYPES.PLAIN); ("HTML", TEXT_MIME_TYPES.HTML);
    ("MARKDOWN", TEXT_MIME_TYPES.MARKDOWN); ("LATEX", TEXT_MIME_TYPES.LATEX);
    ("CSV", TEXT_MIME_TYPES.CSV); ("XML", TEXT_MIME_TYPES.XML) ].

Definition IMAGE_MIME_TYPES_OBJECT : JsObject :=
  [ ("PNG", IMAGE_MIME_TYPES.PNG); ("JPEG", IMAGE_MIME_TYPES.JPEG);
    ("GIF", IMAGE_MIME_TYPES.GIF); ("SVG", IMAGE_MIME_TYPES.SVG);
    ("BMP", IMAGE_MIME_TYPES.BMP); ("WEBP", IMAGE_MIME_TYPES.WEBP) ].

Definition APPLICATION_MIME_TYPES_OBJECT : JsObject :=
  [ ("JSON", APPLICATION_MIME_TYPES.JSON);
    ("JAVASCRIPT", APPLICATION_MIME_TYPES.JAVASCRIPT);
    ("PDF", APPLICATION_MIME_TYPES.PDF);
    ("GEOJSON", APPLICATION_MIME_TYPES.GEOJSON);
    ("XML", APPLICATION_MIME_TYPES.XML) ].

Definition JUPYTER_MIME_TYPES_OBJECT : JsObject :=
  [ ("WIDGET_VIEW", JUPYTER_MIME_TYPES.WIDGET_VIEW);
    ("WIDGET_STATE", JUPYTER_MIME_TYPES.WIDGET_STATE);
    ("ERROR", JUPYTER_MIME_TYPES.ERROR);
    ("STDIN", JUPYTER_MIME_TYPES.STDIN) ].

Definition VISUALIZATION_MIME_TYPES_OBJECT : JsObject :=
  [ ("PLOTLY_V1", VISUALIZATION_MIME_TYPES.PLOTLY_V1);
    ("VEGA_V2", VISUALIZATION_MIME_TYPES.VEGA_V2);
    ("VEGA_V3", VISUALIZATION_MIME_TYPES.VEGA_V3);
    ("VEGA_V4", VISUALIZATION_MIME_TYPES.VEGA_V4);
    ("VEGA_V5", VISUALIZATION_MIME_TYPES.VEGA_V5);
    ("VEGALITE_V1", VISUALIZATION_MIME_TYPES.VEGALITE_V1);
    ("VEGALITE_V2", VISUALIZATION_MIME_TYPES.VEGALITE_V2);
    ("VEGALITE_V3", VISUALIZATION_MIME_TYPES.VEGALITE_V3);
    ("VEGALITE_V4", VISUALIZATION_MIME_TYPES.VEGALITE_V4);
    ("VEGALITE_V5", VISUALIZATION_MIME_TYPES.VEGALITE_V5);
    ("BOKEH", VISUALIZATION_MIME_TYPES.BOKEH);
    ("HOLOVIEWS_EXEC", VISUALIZATION_MIME_TYPES.HOLOVIEWS_EXEC);
    ("HOLOVIEWS_LOAD", VISUALIZATION_MIME_TYPES.HOLOVIEWS_LOAD) ].

Definition STANDARD_MIME_TYPES : JsObject :=
  spread (spread (spread (spread (spread []
    TEXT_MIME_TYPES_OBJECT)
    IMAGE_MIME_TYPES_OBJECT)
    APPLICATION_MIME_TYPES_OBJECT)
    JUPYTER_MIME_TYPES_OBJECT)
    VISUALIZATION_MIME_TYPES_OBJECT.

Definition isStandardMimeType (mimeType : string) : bool :=
  includes (Object_values STANDARD_MIME_TYPES) mimeType.

Definition isHtmlMimeType (mimeType : string) : bool :=
  String.eqb mimeType TEXT_MIME_TYPES.HTML.

Definition isMarkdownMimeType (mimeType : string) : bool :=
  String.eqb mimeType TEXT_MIME_TYPES.MARKDOWN.

(** ** Definitions used by the properties *)

(** Every identifier named in one of the five constant tables. *)
Definition declared_mime_types : list string :=
  Object_values TEXT_MIME_TYPES_OBJECT ++ Object_values IMAGE_MIME_TYPES_OBJECT ++
  Object_values APPLICATION_MIME_TYPES_OBJECT ++
  Object_values JUPYTER_MIME_TYPES_OBJECT ++
  Object_values VISUALIZATION_MIME_TYPES_OBJECT.

(** The identifiers whose category is [text]. *)
Definition text_category_types : list string :=
  [ TEXT_MIME_TYPES.PLAIN; TEXT_MIME_TYPES.HTML; TEXT_MIME_TYPES.MARKDOWN;
    TEXT_MIME_TYPES.LATEX; TEXT_MIME_TYPES.CSV; TEXT_MIME_TYPES.XML;
    APPLICATION_MIME_TYPES.JAVASCRIPT ].

(** No identifier of the list is a property name of [Object.prototype]. *)
Definition plain_names (mimeTypes : list string) : Prop :=
  Forall (fun m => includes OBJECT_PROTOTYPE_KEYS m = false) mimeTypes.

End MimeMore.

(* ===================================================================== *)
(** * Part II, continued: the rest of the tree walker *)
(* ===================================================================== *)

Module WalkerMore.
Import Walker.

(** [node.type === type], for a node of the store. *)
Definition has_type (h : heap) (type_tag : string) (node : loc) : bool :=
  match h !! node with
  | Some o => String.eqb (type o) type_tag
  | None => false
  end.

(** ** visitType *)

Definition visitType {St} (h : heap) (type_tag : string) (visitor : Visitor St)
    (reverse : bool) (fuel : nat) (s : St) (tree : loc) : option St :=
  visit h
    (fun s h node index parent =>
       if has_type h type_tag node then visitor s h node index parent
       else (s, None))
    reverse fuel s tree.

(** ** transformType *)

Definition transformType (type_tag : string) (transformer : Transformer)
    (reverse : bool) (fuel : nat) (h : heap) (tree : loc)
    : option (heap * loc) :=
  transform
    (fun h node index parent =>
       if has_type h type_tag node then transformer h node index parent
       else (h, None))
    reverse fuel h tree.

(** ** find *)

(** The variable [found] of the source is part of the visitor's state;
    the result [None] inside [Some] is [null]. *)
Definition find {St} (fuel : nat) (h : heap)
    (predicate : St -> heap -> loc -> St * bool) (s : St) (tree : loc)
    : option (St * option loc) :=
  visit h
    (fun '(s, found) h node _ _ =>
       let '(s', ok) := predicate s h node in
       if ok then ((s', Some node), Some false)
       else ((s', found), None))
    false fuel (s, None) tree.

(** ** Definitions used by the properties *)

(** Run a (stateful) predicate over the nodes of a list in order, up to
    and including the first node it accepts. *)
Fixpoint first_found {St} (predicate : St -> heap -> loc -> St * bool)
    (h : heap) (s : St) (nodes : list loc) : St * option loc :=
  match nodes with
  | [] => (s, None)
  | n :: rest =>
      let '(s1, ok) := predicate s h n in
      if ok then (s1, Some n) else first_found predicate h s1 rest
  end.

(** The calls of a list that are made on nodes of a given type. *)
Definition of_type (h : heap) (type_tag : string) (calls : list Call)
    : list Call :=
  List.filter (fun c => has_type h type_tag (c_node c)) calls.

(** A transformer is quiet on a tree when, on every object of the tree,
    it returns the object itself or nothing and leaves the store as it
    is. *)
Definition quiet_on (transformer : Transformer) (h : heap) (t : Tree) : Prop :=
  forall l index parent,
    l ∈ locs t ->
    transformer h l index parent = (h, None) \/
    transformer h l index parent = (h, Some l).

Section Prune.
(** Whether a node is kept, given its position and parent. *)
Variable keep : loc -> option nat -> option loc -> bool.

Section PruneKids.
Variable prune_one : Tree -> option nat -> option loc -> option Shape.
Variable parent : loc.

(** The children that survive, in array order, each pruned in turn. *)
Fixpoint kept_kids (i : nat) (ts : list Tree) : list Shape :=
  match ts with
  | [] => []
  | t :: ts' =>
      match prune_one t (Some i) (Some parent) with
      | Some sh => sh :: kept_kids (S i) ts'
      | None => kept_kids (S i) ts'
      end
  end.
End PruneKids.

(** The tree without the rejected nodes and everything below them;
    [None] when the node itself is rejected. *)
Fixpoint prune (t : Tree) (index : option nat) (parent : option loc)
    : option Shape :=
  match t with
  | TreeNode l ty ps kids =>
      if keep l index parent then
        Some (ShapeNode ty ps
                (match kids with
                 | None => None
                 | Some ts => Some (kept_kids prune l 0 ts)
                 end))
      else None
  end.
End Prune.

(** A predicate without state whose answer on the objects of a store is
    [keep] and stays so when the store grows. *)
Definition decides {St} (predicate : Predicate St) (h : heap)
    (keep : loc -> option nat -> option loc -> bool) : Prop :=
  forall (s : St) (h' : heap) node index parent,
    h ⊆ h' ->
    is_Some (h !! node) ->
    predicate s h' node index parent = (s, keep node index parent).

(** What [filterNode] does to one subtree under such a predicate. *)
Definition pruned {St} (predicate : Predicate St)
    (keep : loc -> option nat -> option loc -> bool)
    (h0 : heap) (fuel : nat) (t : Tree) : Prop :=
  forall (h : heap) (s : St) index parent,
    h0 ⊆ h ->
    exists (h' : heap) (r : option loc),
      filterNode predicate fuel h s (root t) index parent = Some (h', s, r) /\
      h ⊆ h' /\
      match prune keep t index parent with
      | Some sh =>
          exists t', r = Some (root t') /\ repr h' t' /\ erase t' = sh
      | None => r = None /\ h' = h
      end.

(** A predicate that looks at the discriminant only. *)
Definition type_is_not (type_tag : string) : Predicate unit :=
  fun s h node _ _ => (s, negb (has_type h type_tag node)).

End WalkerMore.

(* ===================================================================== *)
(** * Part II, continued: outputs and their MIME bundles *)
(* ===================================================================== *)

Module Outputs.
Import Mime.

Local Open Scope string_scope.

(** ** Output nodes *)

(** A MIME bundle is a plain object; it is kept as its own properties in
    the order [Object.keys] lists them. *)
Definition MIMEBundle : Type := list (string * MimeData).

(** The four output variants.  The [metadata] of the two bundle variants
    is read by none of the functions below and is left out. *)
Inductive Output :=
  | StreamOutput (name : string) (text : string)
  | DisplayDataOutput (data : MIMEBundle)
  | ExecuteResultOutput (executionCount : option Z) (data : MIMEBundle)
  | ErrorOutput (ename evalue : string) (traceback : list string).

(** [Object.keys(data)] *)
Definition Object_keys (data : MIMEBundle) : list string := map fst data.

(** The own property [key] of a bundle, if it has one. *)
Fixpoint own_entry (data : MIMEBundle) (key : string) : option MimeData :=
  match data with
  | [] => None
  | (k, v) :: rest => if String.eqb k key then Some v else own_entry rest key
  end.

(** [key in data]: own properties and those of [Object.prototype]. *)
Definition js_in (key : string) (data : MIMEBundle) : bool :=
  match own_entry data key with
  | Some _ => true
  | None => includes OBJECT_PROTOTYPE_KEYS key
  end.

(** What a read [data[key]] gives: an own entry, a member of
    [Object.prototype], or [undefined]. *)
Inductive Extracted :=
  | Entry (d : MimeData)
  | InheritedMember (name : string)
  | NoEntry.

Definition get_entry (data : MIMEBundle) (key : string) : Extracted :=
  match own_entry data key with
  | Some d => Entry d
  | None => if includes OBJECT_PROTOTYPE_KEYS key then InheritedMember key
            else NoEntry
  end.

(** ** Content checks *)

Definition hasHtml (output : Output) : bool :=
  match output with
  | DisplayDataOutput data | ExecuteResultOutput _ data => js_in "text/html" data
  | _ => false
  end.

Definition hasMarkdown (output : Output) : bool :=
  match output with
  | DisplayDataOutput data | ExecuteResultOutput _ data =>
      js_in "text/markdown" data
  | _ => false
  end.

Definition hasText (output : Output) : bool :=
  match output with
  | StreamOutput _ _ => true
  | DisplayDataOutput data | ExecuteResultOutput _ data => js_in "text/plain" data
  | ErrorOutput _ _ _ => false
  end.

(** ** MIME types of an output *)

Definition getOutputMimeTypes (output : Output) : list string :=
  match output with
  | StreamOutput _ _ => [TEXT_MIME_TYPES.PLAIN]
  | DisplayDataOutput data | ExecuteResultOutput _ data => Object_keys data
  | ErrorOutput _ _ _ => ["application/vnd.jupyter.error"]
  end.

Definition getBestOutputMimeType (host_text : string -> string)
    (output : Output) : option string :=
  let mimeTypes := getOutputMimeTypes output in
  selectBestMimeType host_text mimeTypes.

(** [extractMimeData] is declared for the two bundle variants; on the
    other two [output.data] is [undefined] and the read throws, which is
    the result [None]. *)
Definition extractMimeData (output : Output) (mimeType : string)
    : option Extracted :=
  match output with
  | DisplayDataOutput bundle | ExecuteResultOutput _ bundle =>
      let data := get_entry bundle mimeType in
      Some (match data with
            | Entry d => Entry (normalizeMimeData mimeType d)
            | _ => data
            end)
  | _ => None
  end.

Definition hasMimeType (output : Output) (mimeType : string) : bool :=
  includes (getOutputMimeTypes output) mimeType.

(** [Object.keys(output.data).some(test)] *)
Definition hasImage (output : Output) : bool :=
  match output with
  | DisplayDataOutput data | ExecuteResultOutput _ data =>
      existsb isImageMimeType (Object_keys data)
  | _ => false
  end.

Definition hasWidget (output : Output) : bool :=
  match output with
  | DisplayDataOutput data | ExecuteResultOutput _ data =>
      existsb isWidgetMimeType (Object_keys data)
  | _ => false
  end.

Definition hasVisualization (output : Output) : bool :=
  match output with
  | DisplayDataOutput data | ExecuteResultOutput _ data =>
      existsb isVisualizationMimeType (Object_keys data)
  | _ => false
  end.

(** ** HTML escaping *)

Local Open Scope char_scope.

(** The double quote, code unit 34. *)
Definition double_quote : ascii := Ascii.ascii_of_nat 34.

(** The table [htmlEscapes], keyed by the five characters the pattern
    matches: ampersand, less-than, greater-than, double quote and
    apostrophe; [None] for every other character. *)
Definition htmlEscapes (c : ascii) : option string :=
  if Ascii.eqb c "&" then Some "&amp;"%string
  else if Ascii.eqb c "<" then Some "&lt;"%string
  else if Ascii.eqb c ">" then Some "&gt;"%string
  else if Ascii.eqb c double_quote then Some "&quot;"%string
  else if Ascii.eqb c "'" then Some "&#39;"%string
  else None.

(** [text.replace(pattern, (char) => htmlEscapes[char])] with the global
    pattern of those five characters: each match is replaced by its
    entity, everything else is copied. *)
Fixpoint escapeHtml (text : string) : string :=
  match text with
  | EmptyString => EmptyString
  | String c rest =>
      match htmlEscapes c with
      | Some entity => String.append entity (escapeHtml rest)
      | None => String c (escapeHtml rest)
      end
  end.

(** ** Definitions used by the properties *)

(** The characters that open or close markup or an attribute value. *)
Definition markup_char (c : ascii) : bool :=
  Ascii.eqb c "<" || Ascii.eqb c ">" || Ascii.eqb c double_quote ||
  Ascii.eqb c "'".

(** The two variants that carry a bundle. *)
Definition bundle_of (output : Output) : option MIMEBundle :=
  match output with
  | DisplayDataOutput data | ExecuteResultOutput _ data => Some data
  | _ => None
  end.

End Outputs.

(* ===================================================================== *)
(** * Part II, continued: the built-in transformers *)
(* ===================================================================== *)

Module Notebook.
Import Mime Outputs.

Local Open Scope string_scope.

(** ** The typed tree the built-in transformers are declared on

    The built-in transformers have type [Transformer<Root>]: they read
    and assign the [children] of the root and of its cells, and return
    nothing.  A call is modelled by the root it leaves behind. *)

(** [metadata.tags]; the other metadata fields are not read. *)
Record CellMetadata := mkCellMetadata {
  tags : option (list string);
}.

(** The children of a cell: its content node and, for a code cell, the
    outputs. *)
Inductive CellChild :=
  | CodeNode (value : string) (lang : option string)
  | MarkdownNode (value : string)
  | ParsedMarkdownNode (source : string)
  | RawNode (value : string)
  | OutputNode (output : Output).

Record Cell := mkCell {
  cellType : string;
  metadata : option CellMetadata;
  executionCount : option Z;
  cell_children : list CellChild;
}.

Record Root := mkRoot {
  root_type : string;
  nbformat : Z;
  nbformat_minor : Z;
  root_children : list Cell;
}.

(** [root.children = cells] *)
Definition set_root_children (root : Root) (cells : list Cell) : Root :=
  mkRoot (root_type root) (nbformat root) (nbformat_minor root) cells.

(** [cell.children = children] *)
Definition set_cell_children (cell : Cell) (children : list CellChild) : Cell :=
  mkCell (cellType cell) (metadata cell) (executionCount cell) children.

(** ** removeOutputs *)

Definition removeOutputs (root : Root) : Root :=
  if negb (String.eqb (root_type root) "root") then root
  else
    set_root_children root
      (map (fun cell =>
              if String.eqb (cellType cell) "code" &&
                 (1 <? length (cell_children cell))%nat
              then
                (* [cell.children[0]] is there: the array has two elements
                   at least *)
                set_cell_children cell (take 1 (cell_children cell))
              else cell)
           (root_children root)).

(** ** removeCellsByTag, extractCellsByTag *)

(** [cell.metadata?.tags || []] *)
Definition cellTags (cell : Cell) : list string :=
  match metadata cell with
  | Some m => match tags m with Some ts => ts | None => [] end
  | None => []
  end.

(** [tags.some((tag) => cellTags.includes(tag))] *)
Definition has_some_tag (tag_list : list string) (cell : Cell) : bool :=
  existsb (fun tag => includes (cellTags cell) tag) tag_list.

Definition removeCellsByTag (tag_list : list string) (root : Root) : Root :=
  if negb (String.eqb (root_type root) "root") then root
  else
    set_root_children root
      (List.filter (fun cell => negb (has_some_tag tag_list cell))
                   (root_children root)).

Definition extractCellsByTag (tag_list : list string) (root : Root) : Root :=
  if negb (String.eqb (root_type root) "root") then root
  else
    set_root_children root
      (List.filter (fun cell => has_some_tag tag_list cell)
                   (root_children root)).

(** ** Definitions used by the properties *)

(** What [removeOutputs] does to one cell of the root. *)
Definition strip (cell : Cell) : Cell :=
  if String.eqb (cellType cell) "code" && (1 <? length (cell_children cell))%nat
  then set_cell_children cell (take 1 (cell_children cell))
  else cell.

(** ** Sample notebook *)

Definition sample_code_cell : Cell :=
  mkCell "code" (Some (mkCellMetadata (Some ["important"]))) (Some 1%Z)
    [ CodeNode "1+1" (Some "python");
      OutputNode (StreamOutput "stdout" "2");
      OutputNode (ErrorOutput "Error" "boom" ["line 1"]) ].

Definition sample_markdown_cell : Cell :=
  mkCell "markdown" None None [ MarkdownNode "# Title" ].

Definition sample_root : Root :=
  mkRoot "root" 4 5 [ sample_markdown_cell; sample_code_cell ].

End Notebook.

(* ===================================================================== *)
(** * Part II, continued: rendering an output to HTML *)
(* ===================================================================== *)

Module Rendering.
Import Mime Outputs.

Local Open Scope string_scope.

(** ** Text entries of a bundle

    The bundle type declares the entries text/html, text/markdown and
    text/plain as a string or an array of strings.  An entry of another
    kind under one of these keys is outside that type: the functions
    below answer [IllTyped] for it and nothing is said about what the
    program does then. *)
Inductive TextResult :=
  | Text (s : string)
  | NoText
  | IllTyped.

(** [const v = data[key]; if (!v) return undefined;
     return Array.isArray(v) ? v.join('') : v;]
    The empty string is falsy, an array never is. *)
Definition extract_text_entry (data : MIMEBundle) (key : string) : TextResult :=
  match own_entry data key with
  | None => NoText
  | Some (DataString s) => if String.eqb s "" then NoText else Text s
  | Some (DataArray fragments) => Text (join_empty fragments)
  | Some (DataOther _) => IllTyped
  end.

Definition extractHtml (data : MIMEBundle) : TextResult :=
  extract_text_entry data "text/html".

Definition extractMarkdown (data : MIMEBundle) : TextResult :=
  extract_text_entry data "text/markdown".

Definition extractText (data : MIMEBundle) : TextResult :=
  extract_text_entry data "text/plain".

(** The string a test [if (v)] lets through: a non-empty one. *)
Definition truthy (r : TextResult) : option string :=
  match r with
  | Text s => if String.eqb s "" then None else Some s
  | _ => None
  end.

Definition ill_typed (r : TextResult) : bool :=
  match r with IllTyped => true | _ => false end.

(** ** Options *)

(** Each option is absent or set. *)
Record RenderOutputOptions := mkRenderOutputOptions {
  wrap : option bool;
  wrapperClass : option string;
  preserveAnsi : option bool;
}.

(** ** renderOutputToHtml *)

(** The double quote as a one-character string. *)
Definition dq : string := String double_quote EmptyString.

(** The line feed as a one-character string. *)
Definition lf : string := String (Ascii.ascii_of_nat 10) EmptyString.

(** [traceback.join('\n')] *)
Definition join_lines (lines : list string) : string := String.concat lf lines.

Section Render.
(** The markdown processor of the library, awaited where it is called. *)
Variable markdownToHtml : string -> string.
(** [stripAnsi] is kept abstract: what is proved holds whatever it
    returns. *)
Variable stripAnsi : string -> string.

(** The content of a bundle: HTML, else markdown, else plain text, else
    the initial empty string.  [None]: an entry that is read is
    ill-typed. *)
Definition bundle_content (data : MIMEBundle) : option string :=
  let html := extractHtml data in
  if ill_typed html then None else
  match truthy html with
  | Some html => Some html
  | None =>
      let markdown := extractMarkdown data in
      if ill_typed markdown then None else
      match truthy markdown with
      | Some markdown => Some (markdownToHtml markdown)
      | None =>
          let txt := extractText data in
          if ill_typed txt then None else
          match truthy txt with
          | Some txt => Some ("<pre>" +:+ escapeHtml txt +:+ "</pre>")
          | None => Some ""
          end
      end
  end.

Definition renderOutputToHtml (output : Output) (options : RenderOutputOptions)
    : option string :=
  (* options.wrap !== false *)
  let wrap := match wrap options with Some false => false | _ => true end in
  (* options.wrapperClass || 'jupyter-output' *)
  let wrapperClass :=
    match wrapperClass options with
    | Some c => if String.eqb c "" then "jupyter-output" else c
    | None => "jupyter-output"
    end in
  match output with
  | StreamOutput name txt =>
      let content := escapeHtml txt in
      Some (if wrap then
              "<pre class=" +:+ dq +:+ wrapperClass +:+ " " +:+ wrapperClass +:+
              "-stream " +:+ wrapperClass +:+ "-" +:+ name +:+ dq +:+ ">" +:+
              content +:+ "</pre>"
            else content)
  | DisplayDataOutput data | ExecuteResultOutput _ data =>
      match bundle_content data with
      | None => None
      | Some content =>
          (* wrap && content *)
          Some (if wrap && negb (String.eqb content "") then
                  let outputType :=
                    match output with
                    | ExecuteResultOutput _ _ => "execute-result"
                    | _ => "display-data"
                    end in
                  "<div class=" +:+ dq +:+ wrapperClass +:+ " " +:+
                  wrapperClass +:+ "-" +:+ outputType +:+ dq +:+ ">" +:+
                  content +:+ "</div>"
                else content)
      end
  | ErrorOutput ename evalue traceback =>
      let traceback :=
        match preserveAnsi options with
        | Some true => join_lines traceback
        | _ => stripAnsi (join_lines traceback)
        end in
      let content := escapeHtml traceback in
      Some (if wrap then
              "<pre class=" +:+ dq +:+ wrapperClass +:+ " " +:+ wrapperClass +:+
              "-error" +:+ dq +:+ "><span class=" +:+ dq +:+ "error-name" +:+
              dq +:+ ">" +:+ escapeHtml ename +:+ "</span>: " +:+
              escapeHtml evalue +:+ lf +:+ content +:+ "</pre>"
            else content)
  end.
End Render.

(** ** Definitions used by the properties *)

(** No character of [s] opens or closes markup or an attribute value. *)
Definition markup_free (s : string) : Prop :=
  forall c : ascii, In c (String.list_ascii_of_string s) -> markup_char c = false.

(** An output that carries an image and no text. *)
Definition image_output : Output :=
  DisplayDataOutput [("image/png", DataString "iVBORw0KGgo=")].

End Rendering.

(* ===================================================================== *)
(** * Part III: properties of the MIME subsystem *)
(* ===================================================================== *)

Module MimeSpec.
Import Mime.

Local Open Scope string_scope.
Local Open Scope Z_scope.

(** ** Properties of the classifier *)

Lemma includes_true (arr : list string) (x : string) :
  includes arr x = true <-> In x arr.
Proof.
  unfold includes. rewrite existsb_exists. split.
  - intros (y & Hy & Heq). apply String.eqb_eq in Heq. now subst.
  - intros Hin. exists x. split; [assumption | apply String.eqb_refl].
Qed.

(** C2. The category is decided by the structural tests taken in the
    fixed order widget, visualization, image, json, binary, text: the
    first test that passes gives the category, and [unknown] is returned
    when none passes.  The identifier application/vnd.vegalite.v5+json
    passes the json test (its suffix is +json) and is nevertheless
    classified visualization. *)
Theorem getMimeTypeCategory_precedence :
  (forall mimeType,
     getMimeTypeCategory mimeType = first_match category_precedence mimeType) /\
  map snd category_precedence
    = [widget; visualization; image; json; binary; text] /\
  endsWith VISUALIZATION_MIME_TYPES.VEGALITE_V5 "+json" = true /\
  isJsonMimeType VISUALIZATION_MIME_TYPES.VEGALITE_V5 = true /\
  getMimeTypeCategory VISUALIZATION_MIME_TYPES.VEGALITE_V5 = visualization.
Proof.
  split; [| repeat split; reflexivity].
  intros mimeType. unfold getMimeTypeCategory. simpl.
  destruct (isWidgetMimeType mimeType); [reflexivity |].
  destruct (isVisualizationMimeType mimeType); [reflexivity |].
  destruct (isImageMimeType mimeType); [reflexivity |].
  destruct (isJsonMimeType mimeType); [reflexivity |].
  destruct (isBinaryMimeType mimeType); [reflexivity |].
  destruct (isTextMimeType mimeType); reflexivity.
Qed.

(** C10. [binary] is returned for application/pdf and for no other
    identifier: the other members of the binary list begin with image/
    and are taken by the image test, which comes first. *)
Theorem getMimeTypeCategory_binary_iff_pdf :
  forall mimeType,
    getMimeTypeCategory mimeType = binary <-> mimeType = APPLICATION_MIME_TYPES.PDF.
Proof.
  intros mimeType. split.
  - unfold getMimeTypeCategory.
    destruct (isWidgetMimeType mimeType); [discriminate |].
    destruct (isVisualizationMimeType mimeType); [discriminate |].
    destruct (isImageMimeType mimeType) eqn:Himg; [discriminate |].
    destruct (isJsonMimeType mimeType); [discriminate |].
    destruct (isBinaryMimeType mimeType) eqn:Hbin.
    + intros _. apply includes_true in Hbin. simpl in Hbin.
      destruct Hbin as [<- | [<- | [<- | [<- | [<- | [<- | []]]]]]];
        first [reflexivity | vm_compute in Himg; discriminate].
    + destruct (isTextMimeType mimeType); discriminate.
  - intros ->. reflexivity.
Qed.

(** ** Properties of the normaliser *)

(** The members of the text list are the identifiers of category [text]
    together with the SVG identifier, whose category is [image]. *)
Lemma isTextMimeType_category (mimeType : string) :
  isTextMimeType mimeType = true <->
  getMimeTypeCategory mimeType = text \/ mimeType = IMAGE_MIME_TYPES.SVG.
Proof.
  split.
  - intros H. apply includes_true in H. simpl in H.
    destruct H as [<- | [<- | [<- | [<- | [<- | [<- | [<- | [<- | []]]]]]]]];
      first [left; reflexivity | right; reflexivity].
  - intros [H | ->]; [| reflexivity].
    unfold getMimeTypeCategory in H.
    destruct (isWidgetMimeType mimeType); [discriminate |].
    destruct (isVisualizationMimeType mimeType); [discriminate |].
    destruct (isImageMimeType mimeType); [discriminate |].
    destruct (isJsonMimeType mimeType); [discriminate |].
    destruct (isBinaryMimeType mimeType); [discriminate |].
    destruct (isTextMimeType mimeType); [reflexivity | discriminate].
Qed.

Lemma append_empty_r (s : string) : String.append s "" = s.
Proof.
  induction s as [| c s IH]; [reflexivity |].
  change (String c (String.append s "") = String c s). now rewrite IH.
Qed.

Lemma join_empty_concat (fragments : list string) :
  join_empty fragments = foldr String.append "" fragments.
Proof.
  unfold join_empty. induction fragments as [| x [| y rest] IH].
  - reflexivity.
  - change (x = String.append x ""). now rewrite append_empty_r.
  - change (String.concat "" (x :: y :: rest))
      with (String.append x (String.append "" (String.concat "" (y :: rest)))).
    rewrite IH. reflexivity.
Qed.

(** C4, as the specification states it, fails for the SVG identifier:
    its category is [image], not [text], and a fragmented payload under
    it is joined all the same. *)
Lemma normalizeMimeData_svg_joined :
  getMimeTypeCategory IMAGE_MIME_TYPES.SVG = image /\
  isArray (DataArray ["<svg>"; "</svg>"]) = true /\
  normalizeMimeData IMAGE_MIME_TYPES.SVG (DataArray ["<svg>"; "</svg>"])
    = DataString "<svg></svg>" /\
  normalizeMimeData IMAGE_MIME_TYPES.SVG (DataArray ["<svg>"; "</svg>"])
    <> DataArray ["<svg>"; "</svg>"].
Proof. repeat split; [reflexivity .. | discriminate]. Qed.

(** C4, amended.  A payload that is a sequence is replaced by the
    concatenation of its elements, in order and with no separator,
    exactly when the identifier is on the text list, that is when its
    category is [text] or it is the SVG identifier; every other payload
    is returned unchanged. *)
Theorem normalizeMimeData_joins_text_list :
  forall (mimeType : string) (data : MimeData),
    normalizeMimeData mimeType data =
      match data with
      | DataArray fragments =>
          if bool_decide (getMimeTypeCategory mimeType = text \/
                          mimeType = IMAGE_MIME_TYPES.SVG)
          then DataString (foldr String.append "" fragments)
          else data
      | _ => data
      end.
Proof.
  intros mimeType data. unfold normalizeMimeData.
  destruct data as [s | fragments | j]; simpl;
    try (rewrite andb_false_r; reflexivity).
  rewrite andb_true_r.
  destruct (isTextMimeType mimeType) eqn:Htext.
  - rewrite bool_decide_eq_true_2 by (now apply isTextMimeType_category).
    now rewrite join_empty_concat.
  - rewrite bool_decide_eq_false_2; [reflexivity |].
    intros H. apply isTextMimeType_category in H. congruence.
Qed.

(** The two examples of the specification. *)
Lemma normalizeMimeData_examples :
  normalizeMimeData "text/plain" (DataArray ["a"; "b"; "c"]) = DataString "abc" /\
  normalizeMimeData "image/png" (DataArray ["a"; "b"]) = DataArray ["a"; "b"].
Proof. split; reflexivity. Qed.

(** ** Properties of the selector *)

(** Away from the names [Object.prototype] defines, the lookup is that
    score. *)
Lemma getMimeTypePriority_score (mimeType : string) :
  includes OBJECT_PROTOTYPE_KEYS mimeType = false ->
  getMimeTypePriority mimeType = JsNumber (table_score mimeType).
Proof.
  intros Hfree. unfold getMimeTypePriority, get_property, table_score.
  destruct (own_property MIME_TYPE_PRIORITY mimeType); [reflexivity |].
  now rewrite Hfree.
Qed.

Section SelectProperties.
Variable host_text : string -> string.

Lemma reduce_first_max (rest pre post : list string) (best : string) :
  Forall (fun m => includes OBJECT_PROTOTYPE_KEYS m = false)
         (best :: rest) ->
  Forall (fun m => table_score m < table_score best) pre ->
  Forall (fun m => table_score m <= table_score best) post ->
  exists pre' best' post',
    (pre ++ best :: post ++ rest = pre' ++ best' :: post')%list /\
    reduce1 (better host_text) best rest = best' /\
    Forall (fun m => table_score m < table_score best') pre' /\
    Forall (fun m => table_score m <= table_score best') post'.
Proof.
  unfold reduce1.
  revert pre post best.
  induction rest as [| cur rest IH]; intros pre post best Hfree Hpre Hpost.
  - exists pre, best, post. rewrite app_nil_r. auto.
  - inversion Hfree as [| ? ? Hb Hrest]; subst.
    inversion Hrest as [| ? ? Hc Hrest']; subst.
    simpl. unfold better at 2.
    rewrite (getMimeTypePriority_score _ Hb), (getMimeTypePriority_score _ Hc).
    simpl. destruct (Z.ltb_spec (table_score best) (table_score cur)) as [Hlt | Hge].
    + destruct (IH (pre ++ best :: post)%list [] cur) as (p & b & q & Heq & Hres & Hp & Hq).
      * now constructor.
      * apply Forall_app. split.
        -- eapply Forall_impl; [exact Hpre |]. simpl. intros; lia.
        -- constructor; [assumption |].
           eapply Forall_impl; [exact Hpost |]. simpl. intros; lia.
      * constructor.
      * exists p, b, q. repeat split; try assumption.
        rewrite <- Heq. simpl. now rewrite <- !app_assoc.
    + destruct (IH pre (post ++ [cur])%list best) as (p & b & q & Heq & Hres & Hp & Hq).
      * now constructor.
      * assumption.
      * apply Forall_app. split; [assumption |]. now repeat constructor.
      * exists p, b, q. repeat split; try assumption.
        rewrite <- Heq. now rewrite <- !app_assoc.
Qed.

(** On identifiers that are not names of [Object.prototype] members the
    selector is as specified: nothing for the empty list, and otherwise
    the first identifier of maximal score. *)
Lemma selectBestMimeType_first_max (mimeTypes : list string) :
  Forall (fun m => includes OBJECT_PROTOTYPE_KEYS m = false) mimeTypes ->
  match mimeTypes with
  | [] => selectBestMimeType host_text mimeTypes = None
  | _ :: _ =>
      exists pre best post,
        mimeTypes = (pre ++ best :: post)%list /\
        selectBestMimeType host_text mimeTypes = Some best /\
        Forall (fun m => table_score m < table_score best) pre /\
        Forall (fun m => table_score m <= table_score best) post
  end.
Proof.
  intros Hfree. destruct mimeTypes as [| first rest]; [reflexivity |].
  destruct (reduce_first_max rest [] [] first Hfree)
    as (p & b & q & Heq & Hres & Hp & Hq); try constructor.
  exists p, b, q. simpl in Heq. repeat split; try assumption.
  destruct rest as [| second rest]; simpl.
  - unfold reduce1 in Hres. simpl in Hres. now subst.
  - f_equal. exact Hres.
Qed.
End SelectProperties.

(** The selection scenarios of the specification. *)
Lemma selectBestMimeType_scenarios (host_text : string -> string) :
  selectBestMimeType host_text ["text/plain"; "text/html"; "image/png"]
    = Some "text/html" /\
  selectBestMimeType host_text ["application/vnd.vegalite.v5+json"; "text/plain"]
    = Some "application/vnd.vegalite.v5+json" /\
  selectBestMimeType host_text ["x/unknown"; "y/unknown"] = Some "x/unknown" /\
  selectBestMimeType host_text [] = None.
Proof. repeat split; reflexivity. Qed.

(** C1.  The list ["toString"; "text/html"] is a list of strings with
    "text/html" scoring 100 and "toString" absent from the table, so the
    identifier of maximal score is "text/html".  The lookup of "toString"
    finds the member inherited from [Object.prototype] instead of
    nothing, the default 0 is not applied, every comparison against it is
    false, and the selector answers "toString". *)
Theorem selectBestMimeType_inherited_name :
  forall host_text : string -> string,
    own_property MIME_TYPE_PRIORITY "toString" = None /\
    getMimeTypePriority "toString" = JsInherited "toString" /\
    getMimeTypePriority "text/html" = JsNumber 100 /\
    selectBestMimeType host_text ["toString"; "text/html"] = Some "toString".
Proof. intros host_text. repeat split; reflexivity. Qed.

End MimeSpec.

(* ===================================================================== *)
(** * Part IV: properties of the tree walker *)
(* ===================================================================== *)

Module WalkerSpec.
Import Walker.

(** ** Basic facts about trees *)

Lemma Tree_ind' (P : Tree -> Prop) :
  (forall l ty ps kids, Forall P (default [] kids) -> P (TreeNode l ty ps kids)) ->
  forall t, P t.
Proof.
  intros Hnode. fix IH 1. intros [l ty ps kids]. apply Hnode.
  destruct kids as [ts |]; simpl; [| constructor].
  induction ts as [| t ts IHts]; constructor; [apply IH | exact IHts].
Qed.

Lemma repr_inv (h : heap) l ty ps kids :
  repr h (TreeNode l ty ps kids) ->
  h !! l = Some (mkNode ty ps (kid_roots kids)) /\
  Forall (repr h) (default [] kids).
Proof. intros H. inversion H; subst. split; assumption. Qed.

Lemma repr_mono (h h' : heap) (t : Tree) :
  h ⊆ h' -> repr h t -> repr h' t.
Proof.
  intros Hsub. induction t as [l ty ps kids IH] using Tree_ind'.
  intros [Hl Hkids]%repr_inv. constructor.
  - eapply lookup_weaken; eassumption.
  - rewrite Forall_forall in IH, Hkids |- *. intros t Ht. apply IH; auto.
Qed.

Lemma height_kid (ts : list Tree) (t : Tree) :
  t ∈ ts -> height t <= foldr (fun t' m => max (height t') m) 0 ts.
Proof.
  induction ts as [| t' ts IH]; intros Hin.
  - inversion Hin.
  - simpl. apply elem_of_cons in Hin as [-> | Hin]; [lia |].
    specialize (IH Hin). lia.
Qed.

(** ** Facts about index lists *)

Lemma indices_in_range (reverse : bool) (n : nat) :
  Forall (fun i => i < n) (indices reverse n).
Proof.
  unfold indices. destruct reverse.
  - rewrite Forall_forall. intros i [j [-> Hj]]%list_elem_of_fmap.
    apply elem_of_seq in Hj. lia.
  - rewrite Forall_forall. intros i Hi. apply elem_of_seq in Hi. lia.
Qed.

Lemma below_kids_lookup (calls_of : Tree -> option nat -> option loc -> list Call)
    (parent : loc) (ts : list Tree) (k i : nat) :
  below_kids calls_of parent k ts !! i
  = (fun t => calls_of t (Some (k + i)) (Some parent)) <$> ts !! i.
Proof.
  revert k i. induction ts as [| t ts IH]; intros k i; [reflexivity |].
  destruct i as [| i]; simpl.
  - now rewrite Nat.add_0_r.
  - rewrite IH. now replace (S k + i) with (k + S i) by lia.
Qed.

Lemma below_kids_length calls_of parent k ts :
  length (below_kids calls_of parent k ts) = length ts.
Proof. revert k. induction ts; intros k; simpl; [reflexivity | now rewrite IHts]. Qed.

(** The calls below the children, taken along the index list, are the
    per-child calls in array order or in reverse array order. *)
Lemma below_kids_indices (reverse : bool) calls_of parent (ts : list Tree) :
  let below := below_kids calls_of parent 0 ts in
  map (fun i => default [] (below !! i)) (indices reverse (length ts))
  = if reverse then reversed below else below.
Proof.
  intros below. apply list_eq. intros i.
  assert (Hlen : length below = length ts) by apply below_kids_length.
  rewrite list_lookup_fmap. unfold indices.
  destruct (decide (i < length ts)) as [Hlt | Hge].
  - destruct reverse.
    + rewrite list_lookup_fmap, lookup_seq_lt by assumption. simpl.
      rewrite reverse_lookup by lia. rewrite Hlen.
      replace (length ts - S i) with (length ts - 1 - i) by lia.
      destruct (lookup_lt_is_Some_2 below (length ts - 1 - i)) as [x Hx]; [lia |].
      now rewrite Hx.
    + rewrite lookup_seq_lt by assumption. simpl.
      destruct (lookup_lt_is_Some_2 below i) as [x Hx]; [lia |].
      now rewrite Hx.
  - destruct reverse.
    + rewrite list_lookup_fmap, lookup_seq_ge by lia. simpl.
      symmetry. apply lookup_ge_None_2. rewrite length_reverse. lia.
    + rewrite lookup_seq_ge by lia. simpl.
      symmetry. apply lookup_ge_None_2. lia.
Qed.

(** ** visit follows the pre-order enumeration *)

Section VisitProperties.
Context {St : Type}.
Variable h : heap.
Variable visitor : Visitor St.
Variable reverse : bool.

Lemma run_calls_app (s : St) (xs ys : list Call) :
  run_calls visitor h s (xs ++ ys) =
    let '(s', continue) := run_calls visitor h s xs in
    if continue then run_calls visitor h s' ys else (s', false).
Proof.
  revert s. induction xs as [| c xs IH]; intros s; simpl; [reflexivity |].
  destruct (visitor s h (c_node c) (c_index c) (c_parent c)) as [s1 result].
  destruct (is_false result); [reflexivity | apply IH].
Qed.

Lemma visit_children_spec (fuel : nat) (ts : list Tree) (node : loc)
    (s : St) (idxs : list nat) :
  Forall (fun i => i < length ts) idxs ->
  (forall t, t ∈ ts -> forall s index parent,
      visitNode h visitor reverse fuel s (root t) index parent
      = Some (run_calls visitor h s (preorder reverse t index parent))) ->
  visit_children (visitNode h visitor reverse fuel) (map root ts) node s idxs
  = Some (run_calls visitor h s
            (concat (map (fun i => default []
                                     (below_kids (preorder reverse) node 0 ts !! i))
                         idxs))).
Proof.
  intros Hrange Hkids. revert s.
  induction idxs as [| i idxs IH]; intros s; [reflexivity |].
  inversion Hrange as [| ? ? Hi Hrest]; subst.
  destruct (lookup_lt_is_Some_2 ts i Hi) as [t Ht].
  cbn [visit_children map concat].
  rewrite below_kids_lookup, Ht. simpl.
  rewrite list_lookup_fmap, Ht. simpl.
  rewrite (Hkids t) by (eapply list_elem_of_lookup_2; eassumption).
  simpl. rewrite run_calls_app.
  destruct (run_calls visitor h s (preorder reverse t (Some i) (Some node)))
    as [s' continue].
  destruct continue; simpl; [apply IH; assumption | reflexivity].
Qed.

(** With a budget no smaller than the tree is high, [visitNode] returns,
    and what it did is what [run_calls] does on the pre-order
    enumeration. *)
Lemma visitNode_spec (t : Tree) :
  repr h t ->
  forall fuel s index parent,
    height t <= fuel ->
    visitNode h visitor reverse fuel s (root t) index parent
    = Some (run_calls visitor h s (preorder reverse t index parent)).
Proof.
  induction t as [l ty ps kids IH] using Tree_ind'.
  intros [Hl Hkids]%repr_inv fuel s index parent Hfuel.
  destruct fuel as [| fuel]; [simpl in Hfuel; lia |].
  cbn [visitNode root preorder run_calls c_node c_index c_parent].
  destruct (visitor s h l index parent) as [s1 result].
  destruct (is_false result); [reflexivity |].
  rewrite Hl. simpl.
  destruct kids as [ts |]; simpl; [| reflexivity].
  rewrite length_map.
  rewrite visit_children_spec.
  - now rewrite below_kids_indices.
  - apply indices_in_range.
  - intros t Ht s' index' parent'.
    simpl in IH, Hkids. rewrite Forall_forall in IH, Hkids.
    apply IH; auto.
    simpl in Hfuel. pose proof (height_kid ts t Ht). lia.
Qed.
End VisitProperties.

Lemma run_calls_traced {St} (visitor : Visitor St) (h : heap) (s : St)
    (log : list (Call * option bool)) (calls : list Call) :
  run_calls (traced visitor) h (s, log) calls =
    let '(s', made) := invocations visitor h s calls in
    ((s', log ++ made), snd (run_calls visitor h s calls)).
Proof.
  revert s log. induction calls as [| c calls IH]; intros s log; simpl.
  - now rewrite app_nil_r.
  - destruct (visitor s h (c_node c) (c_index c) (c_parent c)) as [s1 result].
    destruct c as [n i p]. simpl.
    destruct (is_false result); [reflexivity |].
    rewrite IH. destruct (invocations visitor h s1 calls) as [s2 made].
    now rewrite <- app_assoc.
Qed.

Section InvocationsProperties.
Context {St : Type}.
Variable visitor : Visitor St.
Variable h : heap.

Lemma invocations_prefix (s : St) (calls : list Call) :
  map fst (snd (invocations visitor h s calls)) `prefix_of` calls.
Proof.
  revert s. induction calls as [| c calls IH]; intros s; simpl; [done |].
  destruct (visitor s h (c_node c) (c_index c) (c_parent c)) as [s1 result].
  destruct (is_false result); simpl.
  - now exists calls.
  - specialize (IH s1). destruct (invocations visitor h s1 calls) as [s2 made].
    simpl in *. now apply prefix_cons.
Qed.

(** An invocation that returned [false] is the last one made. *)
Lemma invocations_stop_last (s : St) (calls : list Call) i c r :
  snd (invocations visitor h s calls) !! i = Some (c, r) ->
  is_false r = true ->
  S i = length (snd (invocations visitor h s calls)).
Proof.
  revert s i. induction calls as [| c0 calls IH]; intros s i; simpl; [done |].
  destruct (visitor s h (c_node c0) (c_index c0) (c_parent c0)) as [s1 result].
  destruct (is_false result) eqn:Hres; simpl.
  - destruct i as [| i]; simpl; [reflexivity | done].
  - specialize (IH s1). destruct (invocations visitor h s1 calls) as [s2 made].
    simpl in *. destruct i as [| i]; simpl.
    + intros [= <- <-] Hr. congruence.
    + intros Hi Hr. f_equal. now apply IH.
Qed.

(** When no invocation returned [false], every call was made. *)
Lemma invocations_complete (s : St) (calls : list Call) :
  (forall c r, (c, r) ∈ snd (invocations visitor h s calls) ->
               is_false r = false) ->
  map fst (snd (invocations visitor h s calls)) = calls.
Proof.
  revert s. induction calls as [| c0 calls IH]; intros s; simpl; [done |].
  destruct (visitor s h (c_node c0) (c_index c0) (c_parent c0)) as [s1 result].
  destruct (is_false result) eqn:Hres; simpl.
  - intros Hall. specialize (Hall c0 result ltac:(set_solver)). congruence.
  - specialize (IH s1). destruct (invocations visitor h s1 calls) as [s2 made].
    simpl in *. intros Hall. f_equal. apply IH.
    intros c r Hin. apply (Hall c r). set_solver.
Qed.
End InvocationsProperties.

(** C5.  On a tree held by the store, [visit] returns.  The invocations
    it makes follow the depth-first pre-order enumeration of the tree
    (they are an initial part of it, in the same order); an invocation
    that returns [false] is the last one made, so nothing is visited
    after it, neither siblings nor remaining children of ancestors; when
    no invocation returns [false] the whole enumeration is visited.  A
    visitor that returns [false] at its first invocation is invoked
    exactly once, on the root, whatever the tree. *)
Theorem visit_preorder_until_stop :
  forall {St} (h : heap) (t : Tree) (visitor : Visitor St) (reverse : bool)
         (s : St) (fuel : nat),
    repr h t ->
    height t <= fuel ->
    exists (s' : St) (made : list (Call * option bool)),
      visit h (traced visitor) reverse fuel (s, []) (root t)
        = Some (s', made) /\
      map fst made `prefix_of` preorder reverse t None None /\
      (forall i c r,
          made !! i = Some (c, r) -> is_false r = true -> S i = length made) /\
      ((forall c r, (c, r) ∈ made -> is_false r = false) ->
       map fst made = preorder reverse t None None) /\
      (is_false (snd (visitor s h (root t) None None)) = true ->
       map fst made = [mkCall (root t) None None]).
Proof.
  intros St h t visitor reverse s fuel Hrepr Hfuel.
  set (calls := preorder reverse t None None).
  exists (fst (invocations visitor h s calls)),
         (snd (invocations visitor h s calls)).
  split_and!.
  - unfold visit.
    rewrite (visitNode_spec h (traced visitor) reverse t Hrepr) by assumption.
    fold calls. rewrite run_calls_traced.
    now destruct (invocations visitor h s calls).
  - apply invocations_prefix.
  - apply invocations_stop_last.
  - apply invocations_complete.
  - subst calls. destruct t as [l ty ps kids]. simpl.
    destruct (visitor s h l None None) as [s1 result]. simpl.
    now intros ->.
Qed.

Lemma run_calls_findAll {St} (predicate : St -> heap -> loc -> St * bool)
    (h : heap) (s : St) (results : list loc) (calls : list Call) :
  run_calls
    (fun '(s, results) h node _ _ =>
       let '(s', found) := predicate s h node in
       ((s', if found then results ++ [node] else results), None))
    h (s, results) calls
  = let '(s', kept) := select predicate h s (map c_node calls) in
    ((s', results ++ kept), true).
Proof.
  revert s results. induction calls as [| c calls IH]; intros s results; simpl.
  - now rewrite app_nil_r.
  - destruct (predicate s h (c_node c)) as [s1 found]. simpl.
    rewrite IH. destruct (select predicate h s1 (map c_node calls)) as [s2 kept].
    destruct found; [now rewrite <- app_assoc | reflexivity].
Qed.

Lemma invocations_never_stop (h : heap) (calls : list Call) :
  invocations (fun (s : unit) _ _ _ _ => (s, None)) h tt calls
  = (tt, map (fun c => (c, None)) calls).
Proof. induction calls as [| c calls IH]; simpl; [reflexivity | now rewrite IH]. Qed.

Lemma select_pure {St} (p : heap -> loc -> bool) (h : heap) (s : St)
    (nodes : list loc) :
  select (fun s h n => (s, p h n)) h s nodes = (s, List.filter (p h) nodes).
Proof.
  induction nodes as [| n nodes IH]; simpl; [reflexivity |].
  rewrite IH. reflexivity.
Qed.

(** C7.  On a tree held by the store, [findAll] returns.  A full visit
    (one whose visitor never stops) is invoked on every node of the
    pre-order enumeration, and the result of [findAll] is that
    enumeration with the predicate applied to each node in turn, the
    accepted nodes kept in the same order; no node of the enumeration is
    left out.  For a predicate without state this is the enumeration
    filtered by the predicate. *)
Theorem findAll_preorder_select :
  forall {St} (h : heap) (t : Tree)
         (predicate : St -> heap -> loc -> St * bool) (s : St) (fuel : nat),
    repr h t ->
    height t <= fuel ->
    let enumeration := preorder false t None None in
    visit h (traced (fun (u : unit) _ _ _ _ => (u, None))) false fuel (tt, [])
          (root t)
      = Some (tt, map (fun c => (c, None)) enumeration) /\
    findAll fuel h predicate s (root t)
      = Some (select predicate h s (map c_node enumeration)) /\
    (forall p : heap -> loc -> bool,
       findAll fuel h (fun s h n => (s, p h n)) s (root t)
       = Some (s, List.filter (p h) (map c_node enumeration))).
Proof.
  intros St h t predicate s fuel Hrepr Hfuel enumeration.
  assert (Hall : forall (Q : St -> heap -> loc -> St * bool),
             findAll fuel h Q s (root t)
             = Some (select Q h s (map c_node enumeration))).
  { intros Q. unfold findAll, visit.
    rewrite (visitNode_spec h _ false t Hrepr) by assumption.
    fold enumeration. rewrite run_calls_findAll.
    now destruct (select Q h s (map c_node enumeration)). }
  split_and!.
  - unfold visit.
    rewrite (visitNode_spec h _ false t Hrepr) by assumption.
    fold enumeration. rewrite run_calls_traced, invocations_never_stop.
    reflexivity.
  - apply Hall.
  - intros p. rewrite Hall. now rewrite select_pure.
Qed.

(** ** transform with the identity transformer, default options *)

Lemma array_set_push (arr : list (option loc)) (v : loc) :
  array_set arr (length arr) v = arr ++ [Some v].
Proof.
  unfold array_set. rewrite Nat.ltb_irrefl, Nat.sub_diag. reflexivity.
Qed.

Lemma transform_children_identity (fuel : nat) (ts : list Tree) (node : loc)
    (h : heap) (m : nat) :
  (forall t, t ∈ ts -> forall index parent,
      transformNode identity false fuel h (root t) index parent
      = Some (h, root t)) ->
  forall k,
    k + m <= length ts ->
    transform_children false (transformNode identity false fuel)
      (map root ts) node h (Some <$> take k (map root ts)) (seq k m)
    = Some (h, Some <$> take (k + m) (map root ts)).
Proof.
  intros Hkids. induction m as [| m IH]; intros k Hk.
  - simpl. now rewrite Nat.add_0_r.
  - destruct (lookup_lt_is_Some_2 ts k) as [t Ht]; [lia |].
    assert (Hroot : map root ts !! k = Some (root t))
      by (now rewrite list_lookup_fmap, Ht).
    cbn [seq transform_children]. rewrite Hroot. simpl.
    rewrite (Hkids t) by (eapply list_elem_of_lookup_2; eassumption).
    simpl.
    replace k with (length (Some <$> take k (map root ts))) at 2
      by (rewrite length_fmap, length_take, length_map; lia).
    rewrite array_set_push.
    replace (k + S m) with (S k + m) by lia.
    rewrite <- IH by lia.
    rewrite (take_S_r _ _ _ Hroot), fmap_app. reflexivity.
Qed.

Lemma transformNode_identity (h : heap) (t : Tree) :
  repr h t ->
  forall fuel index parent,
    height t <= fuel ->
    transformNode identity false fuel h (root t) index parent = Some (h, root t).
Proof.
  induction t as [l ty ps kids IH] using Tree_ind'.
  intros [Hl Hkids]%repr_inv fuel index parent Hfuel.
  destruct fuel as [| fuel]; [simpl in Hfuel; lia |].
  cbn [transformNode root]. rewrite Hl. simpl.
  destruct kids as [ts |]; simpl; [| reflexivity].
  rewrite length_map.
  pose proof (transform_children_identity fuel ts l h (length ts)) as Hloop.
  specialize (Hloop
    ltac:(intros t Ht index' parent';
          simpl in IH, Hkids; rewrite Forall_forall in IH, Hkids;
          apply IH; auto;
          simpl in Hfuel; pose proof (height_kid ts t Ht); lia)
    0 ltac:(lia)).
  simpl in Hloop. unfold indices. rewrite Hloop. simpl.
  rewrite take_ge by (rewrite length_map; lia).
  rewrite mapM_fmap_Some by reflexivity. simpl.
  rewrite alter_id; [reflexivity |].
  intros o Ho. rewrite Hl in Ho. injection Ho as <-. reflexivity.
Qed.

(** C8.  On a tree held by the store, [transform] with the identity
    transformer and default options returns, and the tree it returns is
    deep-equal to the tree before the call, every children array in its
    original order. *)
Theorem transform_identity_deep_equal :
  forall (h : heap) (t : Tree) (fuel : nat),
    repr h t ->
    height t <= fuel ->
    exists (h' : heap) (t' : Tree),
      transform identity false fuel h (root t) = Some (h', root t') /\
      repr h' t' /\
      deep_equal t' t.
Proof.
  intros h t fuel Hrepr Hfuel. exists h, t. repeat split.
  - unfold transform. now apply transformNode_identity.
  - assumption.
Qed.

(** ** transform with the identity transformer, reverse requested *)

Lemma root_mirror (t : Tree) : root (mirror t) = root t.
Proof. now destruct t. Qed.

Lemma locs_kid (ts : list Tree) (t : Tree) (l : loc) :
  t ∈ ts -> l ∈ locs t -> l ∈ mjoin (map locs ts).
Proof.
  intros Ht Hl. apply list_elem_of_join. exists (locs t). split; [assumption |].
  now apply list_elem_of_fmap_2.
Qed.

Lemma locs_mirror (t : Tree) (l : loc) : l ∈ locs (mirror t) <-> l ∈ locs t.
Proof.
  induction t as [l0 ty ps kids IH] using Tree_ind'.
  destruct kids as [ts |]; simpl; [| reflexivity].
  rewrite !elem_of_cons. apply or_iff_compat_l.
  simpl in IH. rewrite Forall_forall in IH.
  rewrite !list_elem_of_join. split.
  - intros (ls & Hl & Hls).
    apply list_elem_of_fmap in Hls as (t' & -> & Ht').
    apply elem_of_reverse, list_elem_of_fmap in Ht' as (t & -> & Ht).
    exists (locs t). split; [now apply IH | now apply list_elem_of_fmap_2].
  - intros (ls & Hl & Hls).
    apply list_elem_of_fmap in Hls as (t & -> & Ht).
    exists (locs (mirror t)). split; [now apply IH |].
    apply list_elem_of_fmap_2, elem_of_reverse. now apply list_elem_of_fmap_2.
Qed.

(** A tree is held the same way by two stores that agree on its objects. *)
Lemma repr_agree (h h' : heap) (t : Tree) :
  (forall l, l ∈ locs t -> h' !! l = h !! l) -> repr h t -> repr h' t.
Proof.
  induction t as [l ty ps kids IH] using Tree_ind'.
  intros Hagree [Hl Hkids]%repr_inv. constructor.
  - rewrite Hagree; [assumption | simpl; apply elem_of_cons; now left].
  - rewrite Forall_forall in IH, Hkids |- *. intros t Ht.
    apply IH; auto. intros l' Hl'. apply Hagree.
    destruct kids as [ts |]; simpl in *; [| inversion Ht].
    apply elem_of_cons. right. eapply locs_kid; eassumption.
Qed.

Lemma NoDup_join_disjoint {A} (ls : list (list A)) (i j : nat) (a b : list A) :
  NoDup (mjoin ls) ->
  ls !! i = Some a -> ls !! j = Some b -> i <> j ->
  forall x, x ∈ a -> x ∉ b.
Proof.
  revert i j. induction ls as [| c ls IH]; intros i j Hnd Hi Hj Hne x Ha Hb.
  - discriminate.
  - simpl in Hnd. apply NoDup_app in Hnd as (_ & Hcross & Hnd).
    destruct i as [| i], j as [| j]; simpl in Hi, Hj.
    + congruence.
    + injection Hi as <-. apply (Hcross x Ha).
      apply list_elem_of_join. exists b. split; [assumption |].
      eapply list_elem_of_lookup_2; eassumption.
    + injection Hj as <-. apply (Hcross x Hb).
      apply list_elem_of_join. exists a. split; [assumption |].
      eapply list_elem_of_lookup_2; eassumption.
    + eapply (IH i j); eauto.
Qed.

Lemma NoDup_join_elem {A} (ls : list (list A)) (a : list A) :
  NoDup (mjoin ls) -> a ∈ ls -> NoDup a.
Proof.
  induction ls as [| c ls IH]; intros Hnd Ha; [inversion Ha |].
  simpl in Hnd. apply NoDup_app in Hnd as (Hc & _ & Hnd).
  apply elem_of_cons in Ha as [-> | Ha]; auto.
Qed.

Lemma transform_children_mirror (fuel : nat) (ts : list Tree) (node : loc) :
  Forall (mirrored fuel) ts ->
  NoDup (mjoin (map locs ts)) ->
  forall (m : nat) (h0 : heap),
    m <= length ts ->
    Forall (repr h0) (take m ts) ->
    Forall (fun t => repr h0 (mirror t)) (drop m ts) ->
    exists h' : heap,
      transform_children true (transformNode identity true fuel)
        (map root ts) node h0
        (Some <$> reversed (map root (drop m ts)))
        (map (fun i => length ts - 1 - i) (seq (length ts - m) m))
      = Some (h', Some <$> reversed (map root ts)) /\
      Forall (fun t => repr h' (mirror t)) ts /\
      forall l, l ∉ mjoin (map locs ts) -> h' !! l = h0 !! l.
Proof.
  intros Hkids Hnd. induction m as [| m IH]; intros h0 Hm Htodo Hdone.
  - exists h0. simpl. rewrite drop_0 in Hdone |- *. auto.
  - destruct (lookup_lt_is_Some_2 ts m) as [t Ht]; [lia |].
    assert (Hin : t ∈ ts) by (eapply list_elem_of_lookup_2; eassumption).
    assert (Hroot : map root ts !! m = Some (root t))
      by (now rewrite list_lookup_fmap, Ht).
    rewrite Forall_lookup in Htodo, Hdone.
    rewrite Forall_forall in Hkids.
    destruct (Hkids t Hin h0 (Some m) (Some node)) as (h1 & Hrun & Hrepr1 & Hframe1).
    { apply (Htodo m). rewrite lookup_take_lt by lia. assumption. }
    { apply (NoDup_join_elem (map locs ts)); [assumption |].
      now apply list_elem_of_fmap_2. }
    assert (Hother : forall j t', ts !! j = Some t' -> j <> m ->
                                  forall l, l ∈ locs t' -> h1 !! l = h0 !! l).
    { intros j t' Hj Hne l Hl. apply Hframe1.
      eapply (NoDup_join_disjoint (map locs ts) j m); eauto.
      - now rewrite list_lookup_fmap, Hj.
      - now rewrite list_lookup_fmap, Ht. }
    destruct (IH h1) as (h' & Hloop & Hrepr' & Hframe'); [lia | | |].
    { rewrite Forall_lookup. intros j t' Hj.
      apply lookup_take_Some in Hj as [Hj Hlt].
      apply (repr_agree h0); [apply (Hother j t'); [assumption | lia] |].
      apply (Htodo j). rewrite lookup_take_lt by lia. assumption. }
    { rewrite (drop_S _ _ _ Ht). constructor; [assumption |].
      rewrite Forall_lookup. intros j t' Hj.
      pose proof Hj as Hj'. rewrite lookup_drop in Hj'.
      apply (repr_agree h0).
      - intros l Hl. apply (Hother (S m + j) t'); [assumption | lia |].
        now apply locs_mirror.
      - apply (Hdone j). assumption. }
    exists h'. split_and!; [| assumption |].
    + replace (length ts - S m) with (length ts - 1 - m) by lia.
      replace (seq (length ts - 1 - m) (S m))
        with ((length ts - 1 - m) :: seq (length ts - m) m)
        by (simpl; f_equal; f_equal; lia).
      cbn [map transform_children].
      replace (length ts - 1 - (length ts - 1 - m)) with m by lia.
      rewrite Hroot. simpl. rewrite Hrun. simpl.
      rewrite length_map.
      replace (length ts - 1 - m)
        with (length (Some <$> reversed (map root (drop (S m) ts)))) at 1
        by (rewrite length_fmap, length_reverse, length_map, length_drop; lia).
      rewrite array_set_push.
      rewrite <- Hloop. f_equal.
      rewrite (drop_S _ _ _ Ht). simpl. rewrite reverse_cons, fmap_app.
      reflexivity.
    + intros l Hl. rewrite Hframe' by assumption. apply Hframe1.
      intros Hl'. apply Hl. eapply locs_kid; eassumption.
Qed.

Lemma transformNode_mirror (t : Tree) :
  forall fuel, height t <= fuel -> mirrored fuel t.
Proof.
  induction t as [l ty ps kids IH] using Tree_ind'.
  intros fuel Hfuel h index parent [Hl Hkids]%repr_inv Hnd.
  destruct fuel as [| fuel]; [simpl in Hfuel; lia |].
  cbn [transformNode root]. rewrite Hl. simpl.
  destruct kids as [ts |]; simpl.
  - simpl in IH, Hkids, Hfuel, Hnd.
    apply NoDup_cons in Hnd as [Hroot Hnd].
    destruct (transform_children_mirror fuel ts l) with (m := length ts) (h0 := h)
      as (h1 & Hloop & Hrepr1 & Hframe1); auto.
    { rewrite Forall_forall in IH |- *. intros t Ht. apply IH; [assumption |].
      pose proof (height_kid ts t Ht). lia. }
    { now rewrite take_ge by lia. }
    { rewrite drop_all. constructor. }
    rewrite drop_all, Nat.sub_diag in Hloop. simpl in Hloop.
    unfold indices. rewrite length_map, Hloop. simpl.
    rewrite mapM_fmap_Some by reflexivity. simpl.
    eexists. split_and!; [reflexivity | |].
    + constructor.
      * rewrite lookup_alter_eq, Hframe1, Hl by assumption. simpl.
        unfold set_children. simpl. do 3 f_equal.
        rewrite fmap_reverse. f_equal.
        rewrite <- list_fmap_compose. apply list_fmap_ext.
        intros i t _. simpl. now rewrite root_mirror.
      * simpl. rewrite Forall_forall in Hrepr1 |- *. intros t' Ht'.
        apply elem_of_reverse, list_elem_of_fmap in Ht' as (t & -> & Ht).
        apply (repr_agree h1); [| now apply Hrepr1].
        intros l' Hl'. apply lookup_alter_ne. intros <-.
        apply Hroot. eapply locs_kid; [eassumption |]. now apply locs_mirror.
    + intros l' Hl'. apply not_elem_of_cons in Hl' as [Hne Hl'].
      rewrite lookup_alter_ne by congruence. now apply Hframe1.
  - exists h. split_and!; [reflexivity | now constructor | reflexivity].
Qed.

(** With [reverse] requested and the identity transformer, a tree whose
    objects are all distinct comes back with every children array
    reversed. *)
Lemma transform_identity_reverse_mirror (h : heap) (t : Tree) (fuel : nat) :
  repr h t ->
  NoDup (locs t) ->
  height t <= fuel ->
  exists h' : heap,
    transform identity true fuel h (root t) = Some (h', root t) /\
    repr h' (mirror t) /\
    forall l, l ∉ locs t -> h' !! l = h !! l.
Proof.
  intros Hrepr Hnd Hfuel. now apply (transformNode_mirror t fuel Hfuel).
Qed.

(** ** filter *)

(** C9.  When the predicate rejects the root, [filter] returns the root
    it was given, the very same object, and the store is as it was. *)
Theorem filter_rejected_root :
  forall {St} (predicate : Predicate St) (h : heap) (s : St) (tree : loc)
         (fuel : nat),
    0 < fuel ->
    snd (predicate s h tree None None) = false ->
    filter predicate fuel h s tree
    = Some (h, fst (predicate s h tree None None), tree).
Proof.
  intros St predicate h s tree fuel Hfuel Hreject.
  destruct fuel as [| fuel]; [lia |].
  unfold filter. cbn [filterNode].
  destruct (predicate s h tree None None) as [s1 keep].
  simpl in Hreject. subst keep. reflexivity.
Qed.

Section FilterProperties.
Context {St : Type}.
Variable predicate : Predicate St.

Hypothesis accept_all :
  forall s h node index parent, snd (predicate s h node index parent) = true.

Lemma filter_children_accept_all (fuel : nat) (ts : list Tree) (node : loc) :
  Forall (fun t => height t <= fuel) ts ->
  Forall (copied predicate fuel) ts ->
  forall (rest done : list Tree) (h : heap) (s : St) (filtered : list loc),
    ts = done ++ rest ->
    Forall (repr h) ts ->
    exists (h' : heap) (s' : St) (ts' : list Tree),
      filter_children (filterNode predicate fuel) (map root ts) node h s
        filtered (seq (length done) (length rest))
        = Some (h', s', filtered ++ map root ts') /\
      h ⊆ h' /\
      Forall (repr h') ts' /\
      map erase ts' = map erase rest.
Proof.
  intros Hheight Hcopied.
  induction rest as [| t rest IH]; intros done h s filtered Hts Hrepr.
  - exists h, s, []. simpl. rewrite app_nil_r. split_and!; auto.
  - assert (Hin : t ∈ ts) by (subst ts; set_solver).
    assert (Hroot : map root ts !! length done = Some (root t)).
    { subst ts. rewrite list_lookup_fmap, lookup_app_r by lia.
      now rewrite Nat.sub_diag. }
    rewrite Forall_forall in Hheight, Hcopied, Hrepr.
    destruct (Hcopied t Hin h s (Some (length done)) (Some node))
      as (h1 & s1 & t1 & Hrun & Hsub1 & Hrepr1 & Herase1 & _); auto.
    destruct (IH (done ++ [t]) h1 s1 (filtered ++ [root t1]))
      as (h2 & s2 & ts2 & Hrest & Hsub2 & Hrepr2 & Herase2).
    { now rewrite <- app_assoc. }
    { rewrite Forall_forall. intros t' Ht'. eapply repr_mono; eauto. }
    exists h2, s2, (t1 :: ts2).
    cbn [seq length filter_children]. rewrite Hroot. simpl.
    rewrite Hrun. simpl.
    rewrite length_app, Nat.add_1_r in Hrest. rewrite Hrest.
    split_and!.
    + now rewrite <- app_assoc.
    + etrans; eassumption.
    + constructor; [eapply repr_mono; eassumption | assumption].
    + simpl. now rewrite Herase1, Herase2.
Qed.

Lemma filterNode_accept_all (fuel : nat) (t : Tree) :
  copied predicate fuel t.
Proof.
  revert fuel. induction t as [l ty ps kids IH] using Tree_ind'.
  intros fuel h s index parent Hrepr Hfuel.
  pose proof Hrepr as [Hl Hkids]%repr_inv.
  destruct fuel as [| fuel]; [simpl in Hfuel; lia |].
  cbn [filterNode root].
  pose proof (accept_all s h l index parent) as Hkeep.
  destruct (predicate s h l index parent) as [s1 keep].
  simpl in Hkeep. subst keep. simpl. rewrite Hl. simpl.
  destruct kids as [ts |]; simpl.
  - simpl in IH, Hkids, Hfuel.
    destruct (filter_children_accept_all fuel ts l) with
      (rest := ts) (done := @nil Tree) (h := h) (s := s1)
      (filtered := @nil loc)
      as (h1 & s2 & ts' & Hloop & Hsub & Hrepr' & Herase); auto.
    { rewrite Forall_forall. intros t Ht.
      pose proof (height_kid ts t Ht). lia. }
    { rewrite Forall_forall in IH |- *. intros t Ht. apply IH, Ht. }
    simpl in Hloop. rewrite length_map, Hloop. simpl.
    rewrite (lookup_weaken _ _ _ _ Hl Hsub). simpl.
    pose proof (is_fresh (dom h1)) as Hfresh.
    set (fresh_loc := fresh (dom h1)) in *.
    assert (Hnone : h1 !! fresh_loc = None) by (now apply not_elem_of_dom).
    assert (Hsub' : h1 ⊆ <[fresh_loc := set_children (map root ts') (mkNode ty ps (Some (map root ts)))]> h1)
      by (now apply insert_subseteq).
    eexists _, s2, (TreeNode fresh_loc ty ps (Some ts')).
    split_and!.
    + reflexivity.
    + etrans; eassumption.
    + constructor.
      * now rewrite lookup_insert_eq.
      * simpl. rewrite Forall_forall in Hrepr' |- *.
        intros t Ht. eapply repr_mono; eauto.
    + simpl. now rewrite Herase.
    + intros Hin. apply Hfresh. eapply subseteq_dom; eassumption.
  - exists h, s1, (TreeNode l ty ps None). split_and!; auto.
Qed.
End FilterProperties.

(** C6, amended.  When the predicate accepts every node, [filter] on a
    tree held by the store returns; the store afterwards extends the
    store before (no object that existed is changed), and the result is a
    tree deep-equal to the input.  When the root has a children array the
    result is a new object, different from every object that existed;
    when the root is a leaf the result is the root itself. *)
Theorem filter_accept_all_copies_parents :
  forall {St} (predicate : Predicate St) (h : heap) (t : Tree) (s : St)
         (fuel : nat),
    (forall s h node index parent,
        snd (predicate s h node index parent) = true) ->
    repr h t ->
    height t <= fuel ->
    exists (h' : heap) (s' : St) (t' : Tree),
      filter predicate fuel h s (root t) = Some (h', s', root t') /\
      h ⊆ h' /\
      repr h' t' /\
      deep_equal t' t /\
      match t with
      | TreeNode _ _ _ (Some _) => root t' <> root t /\ root t' ∉ dom h
      | TreeNode _ _ _ None => root t' = root t
      end.
Proof.
  intros St predicate h t s fuel Hall Hrepr Hfuel.
  destruct (filterNode_accept_all predicate Hall fuel t h s None None Hrepr Hfuel)
    as (h' & s' & t' & Hrun & Hsub & Hrepr' & Herase & Hid).
  exists h', s', t'. unfold filter. rewrite Hrun. simpl.
  split_and!; auto.
  destruct t as [l ty ps [ts |]].
  - split; [| exact Hid]. intros Heq. apply Hid. rewrite Heq.
    apply repr_inv in Hrepr as [Hl _]. apply elem_of_dom. eauto.
  - now subst t'.
Qed.

(** ** The sample stores *)

Lemma leaf_store_repr : repr leaf_store leaf_tree.
Proof. constructor; [reflexivity | constructor]. Defined.

Lemma cell_store_repr : repr cell_store cell_tree.
Proof.
  constructor; [reflexivity |].
  repeat (constructor; [constructor; [reflexivity | constructor] |]).
  constructor.
Defined.

(** C6, as the specification states it, fails on a tree that is a single
    leaf: every node is accepted and the value returned is the input
    object itself, not a copy. *)
Lemma filter_leaf_root_same_object :
  repr leaf_store leaf_tree /\
  filter (always true) 1 leaf_store tt (root leaf_tree)
    = Some (leaf_store, tt, root leaf_tree) /\
  ~ (exists (h' : heap) (s' : unit) (r : loc),
       filter (always true) 1 leaf_store tt (root leaf_tree) = Some (h', s', r) /\
       r <> root leaf_tree).
Proof.
  split; [exact leaf_store_repr |]. split; [reflexivity |].
  intros (h' & s' & r & Hrun & Hnew). apply Hnew.
  change (filter (always true) 1 leaf_store tt (root leaf_tree))
    with (Some (leaf_store, tt, root leaf_tree)) in Hrun.
  now injection Hrun as _ _ <-.
Qed.

(** C3.  A cell whose children array is [code, output], transformed by
    the identity with [reverse] requested: the children array ends up as
    [output, code].  Each result is stored at position
    [length - 1 - i] while [i] itself already runs from the last index
    down, so the order is not restored but reversed. *)
Theorem transform_reverse_reverses_children :
  repr cell_store cell_tree /\
  children <$> cell_store !! 1%positive = Some (Some [2; 3]%positive) /\
  exists h' : heap,
    transform identity true 2 cell_store 1%positive = Some (h', 1%positive) /\
    children <$> h' !! 1%positive = Some (Some [3; 2]%positive).
Proof.
  split; [exact cell_store_repr |]. split; [reflexivity |].
  eexists. split; [vm_compute; reflexivity | reflexivity].
Qed.

(** ** The theorems at the sample stores *)

Lemma cell_tree_height : height cell_tree <= 2.
Proof. simpl. lia. Defined.

(** The visitor stops at the code node: the cell and its code are
    visited, the output after it is not. *)
Lemma visit_preorder_until_stop_witness :
  repr cell_store cell_tree /\
  height cell_tree <= 2 /\
  exists (s' : nat) (made : list (Call * option bool)),
    visit cell_store (traced stop_at_code) false 2 (0, []) (root cell_tree)
      = Some (s', made) /\
    map fst made `prefix_of` preorder false cell_tree None None /\
    (forall i c r,
        made !! i = Some (c, r) -> is_false r = true -> S i = length made).
Proof.
  split; [exact cell_store_repr |]. split; [exact cell_tree_height |].
  destruct (visit_preorder_until_stop cell_store cell_tree stop_at_code false
              0 2 cell_store_repr cell_tree_height)
    as (s' & made & Hrun & Hprefix & Hstop & _).
  exists s', made. split; [exact Hrun |]. split; [exact Hprefix | exact Hstop].
Defined.

Lemma findAll_preorder_select_witness :
  repr cell_store cell_tree /\
  height cell_tree <= 2 /\
  findAll 2 cell_store (fun (s : unit) _ n => (s, bool_decide (n <> 2%positive)))
          tt (root cell_tree)
    = Some (tt, [1%positive; 3%positive]).
Proof.
  split; [exact cell_store_repr |]. split; [exact cell_tree_height |].
  destruct (findAll_preorder_select cell_store cell_tree
              (fun (s : unit) _ n => (s, bool_decide (n <> 2%positive))) tt 2
              cell_store_repr cell_tree_height)
    as (_ & Hfind & _).
  rewrite Hfind. reflexivity.
Defined.

Lemma transform_identity_deep_equal_witness :
  repr cell_store cell_tree /\
  height cell_tree <= 2 /\
  exists (h' : heap) (t' : Tree),
    transform identity false 2 cell_store (root cell_tree) = Some (h', root t') /\
    repr h' t' /\
    deep_equal t' cell_tree.
Proof.
  split; [exact cell_store_repr |]. split; [exact cell_tree_height |].
  exact (transform_identity_deep_equal cell_store cell_tree 2
           cell_store_repr cell_tree_height).
Defined.

Lemma filter_rejected_root_witness :
  0 < 1 /\
  snd (always false tt cell_store 1%positive None None) = false /\
  filter (always false) 1 cell_store tt 1%positive
    = Some (cell_store, tt, 1%positive).
Proof.
  split; [lia |]. split; [reflexivity |].
  exact (filter_rejected_root (always false) cell_store tt 1%positive 1
           ltac:(lia) eq_refl).
Defined.

Lemma filter_accept_all_copies_parents_witness :
  (forall s h node index parent,
      snd (always true s h node index parent) = true) /\
  repr cell_store cell_tree /\
  height cell_tree <= 2 /\
  exists (h' : heap) (s' : unit) (t' : Tree),
    filter (always true) 2 cell_store tt (root cell_tree)
      = Some (h', s', root t') /\
    cell_store ⊆ h' /\
    repr h' t' /\
    deep_equal t' cell_tree /\
    root t' <> root cell_tree.
Proof.
  split; [intros; reflexivity |].
  split; [exact cell_store_repr |]. split; [exact cell_tree_height |].
  destruct (filter_accept_all_copies_parents (always true) cell_store cell_tree
              tt 2 (fun _ _ _ _ _ => eq_refl) cell_store_repr cell_tree_height)
    as (h' & s' & t' & Hrun & Hsub & Hrepr & Heq & Hnew & _).
  exists h', s', t'. auto.
Defined.

End WalkerSpec.

(* ===================================================================== *)
(** * Part V: further properties of the MIME utilities *)
(* ===================================================================== *)

Module MimeMoreSpec.
Import Mime MimeMore MimeSpec.

Local Open Scope string_scope.
Local Open Scope Z_scope.

(** ** The structural tests against each other *)

Lemma startsWith_head (s : string) (c : Ascii.ascii) (p : string) :
  startsWith s (String c p) = true -> exists s', s = String c s'.
Proof.
  unfold startsWith. destruct s as [| c' s']; simpl; [discriminate |].
  destruct (Ascii.ascii_dec c c') as [-> | _]; [eauto | discriminate].
Qed.

Lemma isWidgetMimeType_cases (m : string) :
  isWidgetMimeType m = true ->
  m = JUPYTER_MIME_TYPES.WIDGET_VIEW \/ m = JUPYTER_MIME_TYPES.WIDGET_STATE.
Proof.
  unfold isWidgetMimeType. intros [H | H]%orb_true_iff;
    apply String.eqb_eq in H; auto.
Qed.

Lemma isVisualizationMimeType_head (m : string) :
  isVisualizationMimeType m = true -> exists s, m = String (Ascii.ascii_of_nat 97) s.
Proof.
  unfold isVisualizationMimeType.
  rewrite !orb_true_iff.
  intros [[[[H | H] | H] | H] | H]; eapply startsWith_head; exact H.
Qed.

(** No identifier passes two of the widget, visualization and image
    tests. *)
Lemma structural_tests_exclusive (m : string) :
  (isWidgetMimeType m = true ->
   isVisualizationMimeType m = false /\ isImageMimeType m = false) /\
  (isVisualizationMimeType m = true -> isImageMimeType m = false).
Proof.
  split.
  - intros [-> | ->]%isWidgetMimeType_cases; split; reflexivity.
  - intros [s ->]%isVisualizationMimeType_head. reflexivity.
Qed.

Lemma own_test_category (m : string) :
  (getMimeTypeCategory m = widget <-> isWidgetMimeType m = true) /\
  (getMimeTypeCategory m = visualization <-> isVisualizationMimeType m = true) /\
  (getMimeTypeCategory m = image <-> isImageMimeType m = true).
Proof.
  destruct (structural_tests_exclusive m) as [Hw Hv].
  unfold getMimeTypeCategory.
  destruct (isWidgetMimeType m) eqn:Ew.
  - destruct (Hw eq_refl) as [-> ->]. repeat split; congruence.
  - destruct (isVisualizationMimeType m) eqn:Ev.
    + rewrite (Hv eq_refl). repeat split; congruence.
    + destruct (isImageMimeType m) eqn:Ei; [repeat split; congruence |].
      destruct (isJsonMimeType m), (isBinaryMimeType m), (isTextMimeType m);
        repeat split; congruence.
Qed.

(** X1.  The widget, visualization and image tests exclude one another,
    so each of them alone decides its category: an identifier is
    classified widget, visualization or image exactly when it passes the
    test of that name, whatever the other tests say. *)
Theorem category_decided_by_own_test :
  forall m : string,
    (isWidgetMimeType m = true ->
     isVisualizationMimeType m = false /\ isImageMimeType m = false) /\
    (isVisualizationMimeType m = true -> isImageMimeType m = false) /\
    (getMimeTypeCategory m = widget <-> isWidgetMimeType m = true) /\
    (getMimeTypeCategory m = visualization <-> isVisualizationMimeType m = true) /\
    (getMimeTypeCategory m = image <-> isImageMimeType m = true).
Proof.
  intros m. destruct (structural_tests_exclusive m) as [Hw Hv].
  destruct (own_test_category m) as (H1 & H2 & H3). auto.
Qed.

(** X2.  The category [text] is returned for the six text/... identifiers
    of the text table and for application/javascript, and for no other
    identifier. *)
Theorem category_text_iff :
  forall m : string,
    getMimeTypeCategory m = text <-> In m text_category_types.
Proof.
  intros m. split.
  - intros H. assert (Ht : isTextMimeType m = true)
      by (apply isTextMimeType_category; now left).
    apply includes_true in Ht. simpl in Ht. simpl.
    destruct Ht as [<- | [<- | [<- | [<- | [<- | [<- | [<- | [<- | []]]]]]]]];
      auto 10.
    discriminate H.
  - simpl. intros [<- | [<- | [<- | [<- | [<- | [<- | [<- | []]]]]]]];
      reflexivity.
Qed.

(** ** The merged table of standard identifiers *)

(** X3.  The tables are merged by object spread, and the text table and
    the application table both name a property XML: the later one
    replaces the earlier.  So an identifier is standard exactly when one
    of the five tables holds it and it is not text/xml; text/xml is on
    the text list and has category text, yet is not standard. *)
Theorem isStandardMimeType_iff :
  (forall m : string,
     isStandardMimeType m = true <->
     In m declared_mime_types /\ m <> TEXT_MIME_TYPES.XML) /\
  isTextMimeType TEXT_MIME_TYPES.XML = true /\
  isStandardMimeType TEXT_MIME_TYPES.XML = false.
Proof.
  split; [| split; reflexivity].
  intros m. unfold isStandardMimeType. rewrite includes_true.
  let v := eval vm_compute in (Object_values STANDARD_MIME_TYPES) in
  change (Object_values STANDARD_MIME_TYPES) with v.
  let v := eval vm_compute in declared_mime_types in
  change declared_mime_types with v.
  unfold TEXT_MIME_TYPES.XML. split.
  - intros H. simpl in H.
    repeat (destruct H as [<- | H]; [split; [simpl; auto 40 | discriminate] |]).
    destruct H.
  - intros [H Hne]. simpl in H.
    repeat (destruct H as [<- | H]; [first [congruence | simpl; auto 40] |]).
    destruct H.
Qed.

(** ** The selector *)

Section SelectorMore.
Variable host_text : string -> string.

Lemma reduce1_member (first : string) (rest : list string) :
  In (reduce1 (better host_text) first rest) (first :: rest).
Proof.
  unfold reduce1. revert first.
  induction rest as [| cur rest IH]; intros first; simpl; [auto |].
  specialize (IH (better host_text first cur)).
  destruct IH as [<- | IH]; [| auto].
  unfold better. simpl.
  destruct (js_gt host_text (getMimeTypePriority cur) (getMimeTypePriority first));
    auto.
Qed.

End SelectorMore.

Lemma selectBestMimeType_In (host_text : string -> string)
    (mimeTypes : list string) (best : string) :
  selectBestMimeType host_text mimeTypes = Some best -> In best mimeTypes.
Proof.
  destruct mimeTypes as [| first [| second rest]]; simpl.
  - discriminate.
  - intros [= <-]. auto.
  - intros [= <-]. apply (reduce1_member host_text first (second :: rest)).
Qed.

Lemma selectBestMimeType_None (host_text : string -> string)
    (mimeTypes : list string) :
  selectBestMimeType host_text mimeTypes = None <-> mimeTypes = [].
Proof.
  destruct mimeTypes as [| first [| second rest]]; simpl;
    split; first [discriminate | reflexivity].
Qed.

(** X4.  Whatever the list holds, the selector answers with one of its
    elements, and it answers nothing only for the empty list. *)
Theorem selectBestMimeType_member :
  forall (host_text : string -> string) (mimeTypes : list string),
    (forall best, selectBestMimeType host_text mimeTypes = Some best ->
                  In best mimeTypes) /\
    (selectBestMimeType host_text mimeTypes = None <-> mimeTypes = []).
Proof.
  intros host_text mimeTypes. split.
  - intros best. apply selectBestMimeType_In.
  - apply selectBestMimeType_None.
Qed.

(** The table's scores are positive and no two entries share one. *)
Lemma priority_scores_distinct :
  NoDup (map snd MIME_TYPE_PRIORITY) /\
  Forall (fun kv => 0 < snd kv <= 100) MIME_TYPE_PRIORITY.
Proof.
  split.
  - apply (bool_decide_unpack _). vm_compute. reflexivity.
  - apply (bool_decide_unpack _). vm_compute. reflexivity.
Qed.

Lemma own_property_In (table : list (string * Z)) (k : string) (v : Z) :
  own_property table k = Some v -> In (k, v) table.
Proof.
  induction table as [| [k' v'] table IH]; simpl; [discriminate |].
  destruct (String.eqb_spec k' k) as [-> | _].
  - intros [= ->]. now left.
  - intros H. right. now apply IH.
Qed.

Lemma table_score_bounds (m : string) : 0 <= table_score m <= 100.
Proof.
  unfold table_score.
  destruct (own_property MIME_TYPE_PRIORITY m) as [v |] eqn:E; unfold default, id;
    [| lia].
  apply own_property_In in E.
  destruct priority_scores_distinct as [_ Hb].
  rewrite List.Forall_forall in Hb. specialize (Hb _ E). simpl in Hb. lia.
Qed.

Lemma NoDup_snd_inj {A} (l : list (A * Z)) (x y : A) (v : Z) :
  NoDup (map snd l) -> In (x, v) l -> In (y, v) l -> x = y.
Proof.
  induction l as [| [a w] l IH]; simpl; [tauto |].
  intros Hnd Hx Hy. apply NoDup_cons in Hnd as [Hnotin Hnd].
  assert (Hin : forall z, In (z, w) l -> False).
  { intros z Hz. apply Hnotin. apply list_elem_of_In.
    apply (in_map snd) in Hz. exact Hz. }
  destruct Hx as [Hx | Hx], Hy as [Hy | Hy].
  - congruence.
  - injection Hx as -> ->. exfalso. eauto.
  - injection Hy as -> ->. exfalso. eauto.
  - auto.
Qed.

(** Two identifiers with the same positive score are the same
    identifier. *)
Lemma table_score_inj (x y : string) :
  0 < table_score x -> table_score x = table_score y -> x = y.
Proof.
  unfold table_score. intros Hpos Heq.
  destruct (own_property MIME_TYPE_PRIORITY x) as [v |] eqn:Ex;
    destruct (own_property MIME_TYPE_PRIORITY y) as [w |] eqn:Ey;
    unfold default, id in Hpos, Heq; try lia.
  subst w. apply own_property_In in Ex, Ey.
  destruct priority_scores_distinct as [Hnd _].
  eapply NoDup_snd_inj; eassumption.
Qed.

Section SelectorOrder.
Variable host_text : string -> string.

Lemma first_max_bound (l pre post : list string) (best x : string) :
  l = (pre ++ best :: post)%list ->
  Forall (fun m => table_score m < table_score best) pre ->
  Forall (fun m => table_score m <= table_score best) post ->
  In x l ->
  table_score x <= table_score best.
Proof.
  intros -> Hpre Hpost Hin.
  rewrite List.Forall_forall in Hpre, Hpost.
  apply in_app_or in Hin as [Hin | [<- | Hin]].
  - specialize (Hpre _ Hin). simpl in Hpre. lia.
  - lia.
  - exact (Hpost _ Hin).
Qed.

(** The selector's answer on a non-empty list of plain names: an element
    whose score bounds every score of the list. *)
Lemma selectBestMimeType_max (l : list string) :
  plain_names l ->
  l <> [] ->
  exists best,
    selectBestMimeType host_text l = Some best /\
    In best l /\
    forall x, In x l -> table_score x <= table_score best.
Proof.
  intros Hplain Hne.
  pose proof (selectBestMimeType_first_max host_text l Hplain) as H.
  destruct l as [| a l]; [congruence |].
  destruct H as (pre & best & post & Heq & Hsel & Hpre & Hpost).
  exists best. split; [exact Hsel |]. split.
  - rewrite Heq. apply in_or_app. right. now left.
  - intros x Hx. eapply first_max_bound; eauto.
Qed.

End SelectorOrder.

(** X5.  When a list of plain names holds an identifier of positive
    score, the selector's answer does not depend on the order of the
    list: every rearrangement gives the same identifier. *)
Theorem selectBestMimeType_order_independent :
  forall (host_text : string -> string) (l l' : list string),
    Permutation l l' ->
    plain_names l ->
    Exists (fun m => 0 < table_score m) l ->
    selectBestMimeType host_text l = selectBestMimeType host_text l'.
Proof.
  intros host_text l l' Hperm Hplain Hpos.
  assert (Hplain' : plain_names l').
  { unfold plain_names in *. rewrite List.Forall_forall in Hplain |- *.
    intros x Hx. apply Hplain. eapply Permutation_in; [| exact Hx].
    now apply Permutation_sym. }
  apply List.Exists_exists in Hpos as (p & Hp & Hppos).
  assert (Hne : l <> []) by (intros ->; inversion Hp).
  assert (Hne' : l' <> []).
  { intros ->. apply Permutation_sym, Permutation_nil in Hperm. congruence. }
  destruct (selectBestMimeType_max host_text l Hplain Hne) as (b & Hb & Hbin & Hbmax).
  destruct (selectBestMimeType_max host_text l' Hplain' Hne') as (b' & Hb' & Hbin' & Hbmax').
  rewrite Hb, Hb'. f_equal.
  apply table_score_inj.
  - specialize (Hbmax p Hp). lia.
  - assert (table_score b <= table_score b')
      by (apply Hbmax'; eapply Permutation_in; eassumption).
    assert (table_score b' <= table_score b)
      by (apply Hbmax; eapply Permutation_in;
          [apply Permutation_sym; eassumption | assumption]).
    lia.
Qed.

(** X6.  A list of plain names that holds text/html is answered with
    text/html, wherever it stands and whatever else the list holds. *)
Theorem selectBestMimeType_html_wins :
  forall (host_text : string -> string) (l : list string),
    plain_names l ->
    In TEXT_MIME_TYPES.HTML l ->
    selectBestMimeType host_text l = Some TEXT_MIME_TYPES.HTML.
Proof.
  intros host_text l Hplain Hin.
  assert (Hne : l <> []) by (intros ->; inversion Hin).
  destruct (selectBestMimeType_max host_text l Hplain Hne) as (b & Hb & Hbin & Hbmax).
  rewrite Hb. f_equal. symmetry. apply table_score_inj; [reflexivity |].
  specialize (Hbmax _ Hin). pose proof (table_score_bounds b) as Hbound.
  change (table_score TEXT_MIME_TYPES.HTML) with 100 in *. lia.
Qed.

(** ** The normaliser *)

(** X7.  Normalising is idempotent, and under an identifier of the text
    list the normalised payload is never an array. *)
Theorem normalizeMimeData_idempotent :
  forall (mimeType : string) (data : MimeData),
    normalizeMimeData mimeType (normalizeMimeData mimeType data)
      = normalizeMimeData mimeType data /\
    (isTextMimeType mimeType = true ->
     isArray (normalizeMimeData mimeType data) = false).
Proof.
  intros mimeType data. unfold normalizeMimeData.
  destruct (isTextMimeType mimeType), data; simpl; auto; split; auto; discriminate.
Qed.

(** ** The theorems at sample lists *)

Lemma selectBestMimeType_order_independent_witness :
  Permutation ["text/plain"; "image/png"; "x/unknown"]
              ["x/unknown"; "image/png"; "text/plain"] /\
  plain_names ["text/plain"; "image/png"; "x/unknown"] /\
  Exists (fun m => 0 < table_score m) ["text/plain"; "image/png"; "x/unknown"] /\
  selectBestMimeType (fun s => s) ["text/plain"; "image/png"; "x/unknown"]
    = selectBestMimeType (fun s => s) ["x/unknown"; "image/png"; "text/plain"].
Proof.
  assert (Hperm : Permutation ["text/plain"; "image/png"; "x/unknown"]
                              ["x/unknown"; "image/png"; "text/plain"]).
  { apply (Permutation_rev ["text/plain"; "image/png"; "x/unknown"]). }
  assert (Hplain : plain_names ["text/plain"; "image/png"; "x/unknown"])
    by (repeat constructor).
  assert (Hpos : Exists (fun m => 0 < table_score m)
                        ["text/plain"; "image/png"; "x/unknown"])
    by (constructor; reflexivity).
  split; [exact Hperm |]. split; [exact Hplain |]. split; [exact Hpos |].
  exact (selectBestMimeType_order_independent (fun s => s) _ _ Hperm Hplain Hpos).
Defined.

Lemma selectBestMimeType_html_wins_witness :
  plain_names ["x/unknown"; "image/svg+xml"; "text/html"] /\
  In TEXT_MIME_TYPES.HTML ["x/unknown"; "image/svg+xml"; "text/html"] /\
  selectBestMimeType (fun s => s) ["x/unknown"; "image/svg+xml"; "text/html"]
    = Some TEXT_MIME_TYPES.HTML.
Proof.
  assert (Hplain : plain_names ["x/unknown"; "image/svg+xml"; "text/html"])
    by (repeat constructor).
  assert (Hin : In TEXT_MIME_TYPES.HTML ["x/unknown"; "image/svg+xml"; "text/html"])
    by (simpl; auto).
  split; [exact Hplain |]. split; [exact Hin |].
  exact (selectBestMimeType_html_wins (fun s => s) _ Hplain Hin).
Defined.

End MimeMoreSpec.

(* ===================================================================== *)
(** * Part VI: further properties of the tree walker *)
(* ===================================================================== *)

Module WalkerMoreSpec.
Import Walker WalkerMore WalkerSpec.

(** ** find *)

Lemma run_calls_find {St} (predicate : St -> heap -> loc -> St * bool)
    (h : heap) (s : St) (found : option loc) (calls : list Call) :
  run_calls
    (fun '(s, found) h node _ _ =>
       let '(s', ok) := predicate s h node in
       if ok then ((s', Some node), Some false)
       else ((s', found), None))
    h (s, found) calls
  = let '(s', r) := first_found predicate h s (map c_node calls) in
    ((s', match r with Some n => Some n | None => found end),
     match r with Some _ => false | None => true end).
Proof.
  revert s. induction calls as [| c calls IH]; intros s; simpl; [reflexivity |].
  destruct (predicate s h (c_node c)) as [s1 ok]. destruct ok; simpl.
  - reflexivity.
  - apply IH.
Qed.

Lemma first_found_head_select {St} (predicate : St -> heap -> loc -> St * bool)
    (h : heap) (s : St) (nodes : list loc) :
  snd (first_found predicate h s nodes) = head (snd (select predicate h s nodes)).
Proof.
  revert s. induction nodes as [| n nodes IH]; intros s; simpl; [reflexivity |].
  destruct (predicate s h n) as [s1 ok]. specialize (IH s1).
  destruct (select predicate h s1 nodes) as [s2 kept]. simpl in *.
  destruct ok; [reflexivity | exact IH].
Qed.

Lemma first_found_pure {St} (p : heap -> loc -> bool) (h : heap) (s : St)
    (nodes : list loc) :
  first_found (fun s h n => (s, p h n)) h s nodes = (s, List.find (p h) nodes).
Proof.
  induction nodes as [| n nodes IH]; simpl; [reflexivity |].
  destruct (p h n); [reflexivity | exact IH].
Qed.

Lemma find_spec {St} (h : heap) (t : Tree)
    (predicate : St -> heap -> loc -> St * bool) (s : St) (fuel : nat) :
  repr h t ->
  height t <= fuel ->
  find fuel h predicate s (root t)
  = Some (first_found predicate h s (map c_node (preorder false t None None))).
Proof.
  intros Hrepr Hfuel. unfold find, visit.
  rewrite (visitNode_spec h _ false t Hrepr) by assumption.
  rewrite run_calls_find.
  now destruct (first_found predicate h s (map c_node (preorder false t None None)))
    as [s' [n |]].
Qed.

Lemma findAll_spec {St} (h : heap) (t : Tree)
    (predicate : St -> heap -> loc -> St * bool) (s : St) (fuel : nat) :
  repr h t ->
  height t <= fuel ->
  findAll fuel h predicate s (root t)
  = Some (select predicate h s (map c_node (preorder false t None None))).
Proof.
  intros Hrepr Hfuel. unfold findAll, visit.
  rewrite (visitNode_spec h _ false t Hrepr) by assumption.
  rewrite run_calls_findAll.
  now destruct (select predicate h s (map c_node (preorder false t None None))).
Qed.

(** X8.  On a tree held by the store, [find] returns.  Its result is the
    first node of the pre-order enumeration that the predicate accepts,
    or null when it accepts none, and the predicate is applied to no node
    after that one.  The node found is the first element of what
    [findAll] returns; for a predicate without state it is the first
    node of the enumeration satisfying the predicate. *)
Theorem find_first_in_preorder :
  forall {St} (h : heap) (t : Tree)
         (predicate : St -> heap -> loc -> St * bool) (s : St) (fuel : nat),
    repr h t ->
    height t <= fuel ->
    let nodes := map c_node (preorder false t None None) in
    find fuel h predicate s (root t)
      = Some (first_found predicate h s nodes) /\
    snd <$> find fuel h predicate s (root t)
      = (fun r => head (snd r)) <$> findAll fuel h predicate s (root t) /\
    (forall p : heap -> loc -> bool,
       find fuel h (fun s h n => (s, p h n)) s (root t)
       = Some (s, List.find (p h) nodes)).
Proof.
  intros St h t predicate s fuel Hrepr Hfuel nodes. split_and!.
  - now apply find_spec.
  - rewrite find_spec, findAll_spec by assumption. simpl.
    f_equal. apply first_found_head_select.
  - intros p. rewrite find_spec by assumption. fold nodes.
    now rewrite first_found_pure.
Qed.

(** ** visitType *)

Lemma run_calls_of_type {St} (h : heap) (type_tag : string)
    (visitor : Visitor St) (s : St) (calls : list Call) :
  run_calls
    (fun s h node index parent =>
       if has_type h type_tag node then visitor s h node index parent
       else (s, None))
    h s calls
  = run_calls visitor h s (of_type h type_tag calls).
Proof.
  revert s. induction calls as [| c calls IH]; intros s; simpl; [reflexivity |].
  destruct (has_type h type_tag (c_node c)); simpl.
  - destruct (visitor s h (c_node c) (c_index c) (c_parent c)) as [s1 result].
    destruct (is_false result); [reflexivity | apply IH].
  - apply IH.
Qed.

(** X9.  On a tree held by the store, [visitType] returns.  The visitor
    is invoked only on nodes of the given type, in the order of the
    pre-order enumeration (nodes of other types are passed over but
    their descendants are still reached); an invocation that returns
    [false] is the last one, and when none does every node of the given
    type is visited. *)
Theorem visitType_preorder_of_type :
  forall {St} (h : heap) (t : Tree) (type_tag : string) (visitor : Visitor St)
         (reverse : bool) (s : St) (fuel : nat),
    repr h t ->
    height t <= fuel ->
    exists (s' : St) (made : list (Call * option bool)),
      visitType h type_tag (traced visitor) reverse fuel (s, []) (root t)
        = Some (s', made) /\
      map fst made `prefix_of` of_type h type_tag (preorder reverse t None None) /\
      (forall i c r,
          made !! i = Some (c, r) -> is_false r = true -> S i = length made) /\
      ((forall c r, (c, r) ∈ made -> is_false r = false) ->
       map fst made = of_type h type_tag (preorder reverse t None None)).
Proof.
  intros St h t type_tag visitor reverse s fuel Hrepr Hfuel.
  set (calls := of_type h type_tag (preorder reverse t None None)).
  exists (fst (invocations visitor h s calls)),
         (snd (invocations visitor h s calls)).
  split_and!.
  - unfold visitType, visit.
    rewrite (visitNode_spec h _ reverse t Hrepr) by assumption.
    rewrite run_calls_of_type. fold calls. rewrite run_calls_traced.
    now destruct (invocations visitor h s calls).
  - apply invocations_prefix.
  - apply invocations_stop_last.
  - apply invocations_complete.
Qed.

(** ** transform with a transformer that changes nothing *)

Lemma transform_children_same
    (rec : heap -> loc -> option nat -> option loc -> option (heap * loc))
    (ts : list Tree) (node : loc) (h : heap) (m : nat) :
  (forall t, t ∈ ts -> forall index parent,
      rec h (root t) index parent = Some (h, root t)) ->
  forall k,
    k + m <= length ts ->
    transform_children false rec (map root ts) node h
      (Some <$> take k (map root ts)) (seq k m)
    = Some (h, Some <$> take (k + m) (map root ts)).
Proof.
  intros Hkids. induction m as [| m IH]; intros k Hk.
  - simpl. now rewrite Nat.add_0_r.
  - destruct (lookup_lt_is_Some_2 ts k) as [t Ht]; [lia |].
    assert (Hroot : map root ts !! k = Some (root t))
      by (now rewrite list_lookup_fmap, Ht).
    cbn [seq transform_children]. rewrite Hroot. simpl.
    rewrite (Hkids t) by (eapply list_elem_of_lookup_2; eassumption).
    simpl.
    replace k with (length (Some <$> take k (map root ts))) at 2
      by (rewrite length_fmap, length_take, length_map; lia).
    rewrite array_set_push.
    replace (k + S m) with (S k + m) by lia.
    rewrite <- IH by lia.
    rewrite (take_S_r _ _ _ Hroot), fmap_app. reflexivity.
Qed.

Lemma transformNode_quiet (transformer : Transformer) (h : heap) (t : Tree) :
  repr h t ->
  quiet_on transformer h t ->
  forall fuel index parent,
    height t <= fuel ->
    transformNode transformer false fuel h (root t) index parent
    = Some (h, root t).
Proof.
  induction t as [l ty ps kids IH] using Tree_ind'.
  intros [Hl Hkids]%repr_inv Hquiet fuel index parent Hfuel.
  destruct fuel as [| fuel]; [simpl in Hfuel; lia |].
  assert (Hself : transformer h l index parent = (h, None) \/
                  transformer h l index parent = (h, Some l)).
  { apply Hquiet. simpl. apply elem_of_cons. now left. }
  cbn [transformNode root]. rewrite Hl. simpl.
  destruct kids as [ts |]; simpl.
  - rewrite length_map.
    pose proof (transform_children_same
                  (transformNode transformer false fuel) ts l h (length ts))
      as Hloop.
    specialize (Hloop
      ltac:(intros t Ht index' parent';
            simpl in IH, Hkids; rewrite Forall_forall in IH, Hkids;
            apply IH; auto;
            [intros l' i' p' Hl'; apply Hquiet; simpl;
             apply elem_of_cons; right; eapply locs_kid; eassumption
            | simpl in Hfuel; pose proof (height_kid ts t Ht); lia])
      0 ltac:(lia)).
    simpl in Hloop. unfold indices. rewrite Hloop. simpl.
    rewrite take_ge by (rewrite length_map; lia).
    rewrite mapM_fmap_Some by reflexivity. simpl.
    rewrite alter_id.
    + now destruct Hself as [-> | ->].
    + intros o Ho. rewrite Hl in Ho. injection Ho as <-. reflexivity.
  - now destruct Hself as [-> | ->].
Qed.

(** X10.  With default options, a transformer that on every node of the
    tree returns the node itself or nothing, and leaves the store alone,
    leaves the tree exactly as it was: [transform] returns the root it
    was given and no object has changed. *)
Theorem transform_quiet_unchanged :
  forall (transformer : Transformer) (h : heap) (t : Tree) (fuel : nat),
    repr h t ->
    height t <= fuel ->
    quiet_on transformer h t ->
    transform transformer false fuel h (root t) = Some (h, root t).
Proof.
  intros transformer h t fuel Hrepr Hfuel Hquiet.
  unfold transform. now apply transformNode_quiet.
Qed.

(** X11.  With default options, [transformType] for a type that no node
    of the tree carries returns the root it was given and changes no
    object, whatever the transformer would do: the transformer is not
    applied to any node. *)
Theorem transformType_absent_type :
  forall (type_tag : string) (transformer : Transformer) (h : heap) (t : Tree)
         (fuel : nat),
    repr h t ->
    height t <= fuel ->
    (forall l, l ∈ locs t -> has_type h type_tag l = false) ->
    transformType type_tag transformer false fuel h (root t)
    = Some (h, root t).
Proof.
  intros type_tag transformer h t fuel Hrepr Hfuel Habsent.
  unfold transformType, transform. apply transformNode_quiet; auto.
  intros l index parent Hl. left. now rewrite (Habsent l Hl).
Qed.

(** ** filter with a predicate that decides node by node *)

Section FilterPrune.
Context {St : Type}.
Variable predicate : Predicate St.
Variable keep : loc -> option nat -> option loc -> bool.
Variable h0 : heap.

Lemma filter_children_pruned (fuel : nat) (ts : list Tree) (node : loc) :
  Forall (pruned predicate keep h0 fuel) ts ->
  forall (rest done : list Tree) (h : heap) (s : St) (filtered : list loc),
    ts = done ++ rest ->
    h0 ⊆ h ->
    exists (h' : heap) (ts' : list Tree),
      filter_children (filterNode predicate fuel) (map root ts) node h s
        filtered (seq (length done) (length rest))
        = Some (h', s, filtered ++ map root ts') /\
      h ⊆ h' /\
      Forall (repr h') ts' /\
      map erase ts' = kept_kids (prune keep) node (length done) rest.
Proof.
  intros Hpruned.
  induction rest as [| t rest IH]; intros done h s filtered Hts Hsub.
  - exists h, []. simpl. rewrite app_nil_r. split_and!; auto.
  - assert (Hin : t ∈ ts) by (subst ts; set_solver).
    assert (Hroot : map root ts !! length done = Some (root t)).
    { subst ts. rewrite list_lookup_fmap, lookup_app_r by lia.
      now rewrite Nat.sub_diag. }
    rewrite Forall_forall in Hpruned.
    destruct (Hpruned t Hin h s (Some (length done)) (Some node) Hsub)
      as (h1 & r & Hrun & Hsub1 & Hres).
    cbn [seq length filter_children kept_kids]. rewrite Hroot. simpl.
    rewrite Hrun. simpl.
    destruct (prune keep t (Some (length done)) (Some node)) as [sh |].
    + destruct Hres as (t' & -> & Hrepr' & Herase').
      destruct (IH (done ++ [t]) h1 s (filtered ++ [root t']))
        as (h2 & ts2 & Hrest & Hsub2 & Hrepr2 & Herase2).
      { now rewrite <- app_assoc. }
      { etrans; eassumption. }
      rewrite length_app, Nat.add_1_r in Hrest, Herase2.
      exists h2, (t' :: ts2). rewrite Hrest. split_and!.
      * now rewrite <- app_assoc.
      * etrans; eassumption.
      * constructor; [eapply repr_mono; eassumption | assumption].
      * simpl. now rewrite Herase', Herase2.
    + destruct Hres as [-> ->].
      destruct (IH (done ++ [t]) h s filtered)
        as (h2 & ts2 & Hrest & Hsub2 & Hrepr2 & Herase2).
      { now rewrite <- app_assoc. }
      { assumption. }
      rewrite length_app, Nat.add_1_r in Hrest, Herase2.
      exists h2, ts2. rewrite Hrest. split_and!; auto.
Qed.

Hypothesis Hdecides : decides predicate h0 keep.

Lemma filterNode_pruned (t : Tree) :
  repr h0 t ->
  forall fuel, height t <= fuel -> pruned predicate keep h0 fuel t.
Proof.
  induction t as [l ty ps kids IH] using Tree_ind'.
  intros Hrepr fuel Hfuel h s index parent Hsub.
  pose proof Hrepr as [Hl Hkids]%repr_inv.
  destruct fuel as [| fuel]; [simpl in Hfuel; lia |].
  cbn [filterNode root prune].
  rewrite (Hdecides s h l index parent Hsub) by eauto.
  destruct (keep l index parent); simpl.
  - rewrite (lookup_weaken _ _ _ _ Hl Hsub). simpl.
    destruct kids as [ts |]; simpl.
    + simpl in IH, Hkids, Hfuel.
      destruct (filter_children_pruned fuel ts l) with
        (rest := ts) (done := @nil Tree) (h := h) (s := s)
        (filtered := @nil loc)
        as (h1 & ts' & Hloop & Hsub1 & Hrepr' & Herase); auto.
      { rewrite Forall_forall in IH, Hkids |- *. intros t Ht.
        apply IH; auto. pose proof (height_kid ts t Ht). lia. }
      simpl in Hloop. rewrite length_map, Hloop. simpl.
      assert (Hl1 : h1 !! l = Some (mkNode ty ps (Some (map root ts)))).
      { eapply lookup_weaken; [| exact Hsub1].
        eapply lookup_weaken; [exact Hl | exact Hsub]. }
      rewrite Hl1. simpl.
      pose proof (is_fresh (dom h1)) as Hfresh.
      set (fresh_loc := fresh (dom h1)) in *.
      assert (Hnone : h1 !! fresh_loc = None) by (now apply not_elem_of_dom).
      eexists _, _. split_and!.
      * reflexivity.
      * etrans; [exact Hsub1 | now apply insert_subseteq].
      * exists (TreeNode fresh_loc ty ps (Some ts')). split_and!.
        -- reflexivity.
        -- constructor.
           ++ now rewrite lookup_insert_eq.
           ++ simpl. rewrite Forall_forall in Hrepr' |- *.
              intros t Ht. eapply repr_mono; [| eauto].
              now apply insert_subseteq.
        -- simpl. now rewrite Herase.
    + exists h, (Some l). split_and!; auto.
      exists (TreeNode l ty ps None). split_and!; auto.
      eapply repr_mono; eassumption.
  - exists h, None. split_and!; auto.
Qed.
End FilterPrune.

Lemma type_is_not_decides (h : heap) (type_tag : string) :
  decides (type_is_not type_tag) h
          (fun node _ _ => negb (has_type h type_tag node)).
Proof.
  intros s h' node index parent Hsub [o Ho]. unfold type_is_not, has_type.
  now rewrite Ho, (lookup_weaken _ _ _ _ Ho Hsub).
Qed.

(** X12.  For a predicate without state whose answer on a node does not
    change while new objects are added to the store, [filter] on a tree
    held by the store returns; no object that existed is changed, and
    the result is the tree with every rejected node removed together
    with everything below it, the remaining children in their original
    order.  When the root itself is rejected the result is the tree as it
    was. *)
Theorem filter_prunes_rejected :
  forall {St} (predicate : Predicate St)
         (keep : loc -> option nat -> option loc -> bool)
         (h : heap) (t : Tree) (s : St) (fuel : nat),
    decides predicate h keep ->
    repr h t ->
    height t <= fuel ->
    exists (h' : heap) (t' : Tree),
      filter predicate fuel h s (root t) = Some (h', s, root t') /\
      h ⊆ h' /\
      repr h' t' /\
      erase t' = default (erase t) (prune keep t None None).
Proof.
  intros St predicate keep h t s fuel Hdec Hrepr Hfuel.
  destruct (filterNode_pruned predicate keep h Hdec t Hrepr fuel Hfuel
              h s None None) as (h' & r & Hrun & Hsub & Hres); [done |].
  unfold filter. rewrite Hrun. simpl.
  destruct (prune keep t None None) as [sh |].
  - destruct Hres as (t' & -> & Hrepr' & Herase).
    exists h', t'. split_and!; auto.
  - destruct Hres as [-> ->]. exists h, t. split_and!; auto.
Qed.

(** ** The theorems at the sample stores *)

Lemma find_first_in_preorder_witness :
  repr cell_store cell_tree /\
  height cell_tree <= 2 /\
  find 2 cell_store (fun (s : unit) h n => (s, has_type h "executeResult" n))
       tt (root cell_tree)
    = Some (tt, Some 3%positive).
Proof.
  split; [exact cell_store_repr |]. split; [exact cell_tree_height |].
  destruct (find_first_in_preorder cell_store cell_tree
              (fun (s : unit) h n => (s, has_type h "executeResult" n)) tt 2
              cell_store_repr cell_tree_height)
    as (Hfind & _).
  rewrite Hfind. reflexivity.
Defined.

Lemma visitType_preorder_of_type_witness :
  repr cell_store cell_tree /\
  height cell_tree <= 2 /\
  exists (s' : nat) (made : list (Call * option bool)),
    visitType cell_store "code" (traced stop_at_code) false 2 (0, [])
              (root cell_tree)
      = Some (s', made) /\
    map fst made
      `prefix_of` of_type cell_store "code" (preorder false cell_tree None None).
Proof.
  split; [exact cell_store_repr |]. split; [exact cell_tree_height |].
  destruct (visitType_preorder_of_type cell_store cell_tree "code" stop_at_code
              false 0 2 cell_store_repr cell_tree_height)
    as (s' & made & Hrun & Hprefix & _).
  exists s', made. split; [exact Hrun | exact Hprefix].
Defined.

Lemma identity_quiet (h : heap) (t : Tree) : quiet_on identity h t.
Proof. intros l index parent _. now right. Defined.

Lemma transform_quiet_unchanged_witness :
  repr cell_store cell_tree /\
  height cell_tree <= 2 /\
  quiet_on identity cell_store cell_tree /\
  transform identity false 2 cell_store (root cell_tree)
    = Some (cell_store, root cell_tree).
Proof.
  split; [exact cell_store_repr |]. split; [exact cell_tree_height |].
  split; [exact (identity_quiet cell_store cell_tree) |].
  exact (transform_quiet_unchanged identity cell_store cell_tree 2
           cell_store_repr cell_tree_height
           (identity_quiet cell_store cell_tree)).
Defined.

Lemma cell_tree_no_markdown :
  forall l, l ∈ locs cell_tree -> has_type cell_store "markdown" l = false.
Proof.
  intros l Hl. simpl in Hl.
  repeat (apply elem_of_cons in Hl as [-> | Hl]; [reflexivity |]).
  inversion Hl.
Defined.

Lemma transformType_absent_type_witness :
  repr cell_store cell_tree /\
  height cell_tree <= 2 /\
  (forall l, l ∈ locs cell_tree -> has_type cell_store "markdown" l = false) /\
  transformType "markdown" (fun h node _ _ => (delete node h, None)) false 2
                cell_store (root cell_tree)
    = Some (cell_store, root cell_tree).
Proof.
  split; [exact cell_store_repr |]. split; [exact cell_tree_height |].
  split; [exact cell_tree_no_markdown |].
  exact (transformType_absent_type "markdown"
           (fun h node _ _ => (delete node h, None)) cell_store cell_tree 2
           cell_store_repr cell_tree_height cell_tree_no_markdown).
Defined.

Lemma filter_prunes_rejected_witness :
  decides (type_is_not "executeResult") cell_store
          (fun node _ _ => negb (has_type cell_store "executeResult" node)) /\
  repr cell_store cell_tree /\
  height cell_tree <= 2 /\
  exists (h' : heap) (t' : Tree),
    filter (type_is_not "executeResult") 2 cell_store tt (root cell_tree)
      = Some (h', tt, root t') /\
    cell_store ⊆ h' /\
    repr h' t' /\
    erase t' = ShapeNode "cell" [("cellType", "code")]
                 (Some [ShapeNode "code" [("value", "1+1")] None]).
Proof.
  split; [exact (type_is_not_decides cell_store "executeResult") |].
  split; [exact cell_store_repr |]. split; [exact cell_tree_height |].
  exact (filter_prunes_rejected (type_is_not "executeResult") _
           cell_store cell_tree tt 2
           (type_is_not_decides cell_store "executeResult")
           cell_store_repr cell_tree_height).
Defined.

End WalkerMoreSpec.

(* ===================================================================== *)
(** * Part VII: properties of the output utilities *)
(* ===================================================================== *)

Module OutputsSpec.
Import Mime MimeMore Outputs MimeSpec MimeMoreSpec.

Local Open Scope string_scope.

(** ** Keys and entries of a bundle *)

Lemma own_entry_keys (data : MIMEBundle) (key : string) :
  is_Some (own_entry data key) <-> In key (Object_keys data).
Proof.
  induction data as [| [k v] data IH]; simpl.
  - split; [intros [? [=]] | tauto].
  - destruct (String.eqb_spec k key) as [-> | Hne].
    + split; eauto.
    + rewrite IH. unfold Object_keys. intuition congruence.
Qed.

Lemma includes_keys (data : MIMEBundle) (key : string) :
  includes (Object_keys data) key = true <-> is_Some (own_entry data key).
Proof. now rewrite includes_true, own_entry_keys. Qed.

Lemma js_in_includes (data : MIMEBundle) (key : string) :
  includes OBJECT_PROTOTYPE_KEYS key = false ->
  js_in key data = includes (Object_keys data) key.
Proof.
  intros Hplain. unfold js_in. rewrite Hplain.
  destruct (own_entry data key) as [d |] eqn:E.
  - symmetry. apply includes_keys. eauto.
  - destruct (includes (Object_keys data) key) eqn:Einc; [| reflexivity].
    apply includes_keys in Einc as [d Hd]. congruence.
Qed.

(** X13.  The three content checks agree with the general membership
    test on every output: [hasHtml], [hasMarkdown] and [hasText] answer
    as [hasMimeType] does for text/html, text/markdown and text/plain. *)
Theorem content_checks_agree :
  forall output : Output,
    hasHtml output = hasMimeType output TEXT_MIME_TYPES.HTML /\
    hasMarkdown output = hasMimeType output TEXT_MIME_TYPES.MARKDOWN /\
    hasText output = hasMimeType output TEXT_MIME_TYPES.PLAIN.
Proof.
  intros [name text | data | count data | ename evalue traceback];
    unfold hasMimeType; simpl; repeat split;
    try reflexivity; now apply js_in_includes.
Qed.

(** X14.  The best MIME type of an output is one of the MIME types of
    that output, and there is none exactly when the output carries a
    bundle with no entry. *)
Theorem getBestOutputMimeType_member :
  forall (host_text : string -> string) (output : Output),
    (forall best, getBestOutputMimeType host_text output = Some best ->
                  hasMimeType output best = true) /\
    (getBestOutputMimeType host_text output = None <->
     bundle_of output = Some []).
Proof.
  intros host_text output. unfold getBestOutputMimeType, hasMimeType. split.
  - intros best H. apply includes_true. eapply selectBestMimeType_In, H.
  - rewrite selectBestMimeType_None.
    destruct output as [name text | data | count data | ename evalue traceback];
      simpl; try (split; discriminate).
    + destruct data; unfold Object_keys; simpl; split; intros H;
        first [reflexivity | discriminate H].
    + destruct data; unfold Object_keys; simpl; split; intros H;
        first [reflexivity | discriminate H].
Qed.

Lemma existsb_keys (test : string -> bool) (output : Output) (c : Category) :
  (forall m, getMimeTypeCategory m = c <-> test m = true) ->
  forall data, bundle_of output = Some data ->
    existsb test (Object_keys data) = true <->
    exists m, hasMimeType output m = true /\ getMimeTypeCategory m = c.
Proof.
  intros Htest data Hdata. unfold hasMimeType.
  assert (Hkeys : getOutputMimeTypes output = Object_keys data)
    by (destruct output; simpl in *; congruence).
  rewrite Hkeys, existsb_exists. split.
  - intros (m & Hin & Hm). exists m. rewrite includes_true, Htest. auto.
  - intros (m & Hin & Hm). exists m. rewrite includes_true in Hin.
    rewrite <- Htest. auto.
Qed.

(** X15.  [hasImage], [hasWidget] and [hasVisualization] hold of an
    output exactly when one of its MIME types has the category image,
    widget or visualization; stream and error outputs never do. *)
Theorem has_category_checks :
  forall output : Output,
    (hasImage output = true <->
     exists m, hasMimeType output m = true /\ getMimeTypeCategory m = image) /\
    (hasWidget output = true <->
     exists m, hasMimeType output m = true /\ getMimeTypeCategory m = widget) /\
    (hasVisualization output = true <->
     exists m, hasMimeType output m = true /\
               getMimeTypeCategory m = visualization).
Proof.
  intros output.
  destruct (bundle_of output) as [data |] eqn:Hdata.
  - assert (Hi := existsb_keys isImageMimeType output image
                    (fun m => proj2 (proj2 (own_test_category m))) data Hdata).
    assert (Hw := existsb_keys isWidgetMimeType output widget
                    (fun m => proj1 (own_test_category m)) data Hdata).
    assert (Hv := existsb_keys isVisualizationMimeType output visualization
                    (fun m => proj1 (proj2 (own_test_category m))) data Hdata).
    destruct output; simpl in Hdata; try discriminate;
      injection Hdata as ->; simpl; auto.
  - destruct output as [name text | data | count data | ename evalue traceback];
      simpl in Hdata; try discriminate; unfold hasMimeType; simpl;
      repeat split; try discriminate;
      intros (m & Hin & Hcat);
      rewrite orb_false_r in Hin; apply String.eqb_eq in Hin; subst m;
      discriminate Hcat.
Qed.

(** X16.  On an output that carries a bundle, [extractMimeData] finds an
    entry exactly for the MIME types of the output, and what it returns
    is that entry normalised; in particular it always finds one for the
    best MIME type. *)
Theorem extractMimeData_entry :
  forall (host_text : string -> string) (output : Output) (data : MIMEBundle)
         (mimeType : string),
    bundle_of output = Some data ->
    (hasMimeType output mimeType = true <->
     exists d, own_entry data mimeType = Some d /\
               extractMimeData output mimeType
               = Some (Entry (normalizeMimeData mimeType d))) /\
    (getBestOutputMimeType host_text output = Some mimeType ->
     exists d, extractMimeData output mimeType = Some (Entry d)).
Proof.
  intros host_text output data mimeType Hdata.
  assert (Hkeys : getOutputMimeTypes output = Object_keys data)
    by (destruct output; simpl in *; congruence).
  assert (Hextract : extractMimeData output mimeType
                     = Some (match get_entry data mimeType with
                             | Entry d => Entry (normalizeMimeData mimeType d)
                             | other => other
                             end))
    by (destruct output; simpl in Hdata; try discriminate Hdata;
        injection Hdata as ->; simpl;
        destruct (get_entry data mimeType); reflexivity).
  assert (Hiff : hasMimeType output mimeType = true <->
                 exists d, own_entry data mimeType = Some d /\
                           extractMimeData output mimeType
                           = Some (Entry (normalizeMimeData mimeType d))).
  { unfold hasMimeType. rewrite Hkeys, includes_keys, Hextract.
    unfold get_entry. split.
    - intros [d Hd]. exists d. now rewrite Hd.
    - intros (d & Hd & _). eauto. }
  split; [exact Hiff |].
  intros Hbest. unfold getBestOutputMimeType in Hbest.
  apply selectBestMimeType_In, includes_true in Hbest.
  apply Hiff in Hbest as (d & _ & Hd). eauto.
Qed.

(** ** HTML escaping *)

Lemma append_String (c : ascii) (s t : string) :
  String.append (String c s) t = String c (String.append s t).
Proof. reflexivity. Qed.

Lemma append_empty_l (t : string) : String.append EmptyString t = t.
Proof. reflexivity. Qed.

Lemma chars_append (s t : string) :
  String.list_ascii_of_string (String.append s t)
  = (String.list_ascii_of_string s ++ String.list_ascii_of_string t)%list.
Proof.
  induction s as [| c s IH]; [reflexivity |].
  rewrite append_String. simpl. now rewrite IH.
Qed.

Lemma htmlEscapes_cases (c : ascii) :
  (c = "&"%char /\ htmlEscapes c = Some "&amp;") \/
  (c = "<"%char /\ htmlEscapes c = Some "&lt;") \/
  (c = ">"%char /\ htmlEscapes c = Some "&gt;") \/
  (c = double_quote /\ htmlEscapes c = Some "&quot;") \/
  (c = "'"%char /\ htmlEscapes c = Some "&#39;") \/
  (c <> "&"%char /\ markup_char c = false /\ htmlEscapes c = None).
Proof.
  unfold htmlEscapes, markup_char.
  destruct (Ascii.eqb_spec c "&") as [-> | Hamp]; [auto |].
  destruct (Ascii.eqb_spec c "<") as [-> | Hlt]; [auto 6 |].
  destruct (Ascii.eqb_spec c ">") as [-> | Hgt]; [auto 6 |].
  destruct (Ascii.eqb_spec c double_quote) as [-> | Hquot]; [auto 6 |].
  destruct (Ascii.eqb_spec c "'") as [-> | Hapos]; [auto 7 |].
  auto 10.
Qed.

Lemma escapeHtml_chars (txt : string) :
  forall c : ascii,
    In c (String.list_ascii_of_string (escapeHtml txt)) -> markup_char c = false.
Proof.
  revert txt.
  induction txt as [| c0 txt IH]; intros c; simpl; [tauto |].
  destruct (htmlEscapes_cases c0)
    as [[-> ->] | [[-> ->] | [[-> ->] | [[-> ->] | [[-> ->] | (_ & Hm & ->)]]]]];
    rewrite ?chars_append; simpl;
    intros H;
    repeat (destruct H as [<- | H]; [first [reflexivity | exact Hm] |]);
    now apply IH.
Qed.

(** X17.  The escaped text holds none of the characters less-than,
    greater-than, double quote and apostrophe, whatever the text was. *)
Theorem escapeHtml_no_markup :
  forall (txt : string) (c : ascii),
    In c (String.list_ascii_of_string (escapeHtml txt)) -> markup_char c = false.
Proof. exact escapeHtml_chars. Qed.

Ltac escape_step H :=
  repeat rewrite append_String in H; rewrite ?append_empty_l in H.

(** X18.  Escaping loses nothing: two texts with the same escaped form
    are the same text. *)
Theorem escapeHtml_injective :
  forall s1 s2 : string, escapeHtml s1 = escapeHtml s2 -> s1 = s2.
Proof.
  induction s1 as [| c1 s1 IH]; intros [| c2 s2] H.
  - reflexivity.
  - cbn [escapeHtml] in H.
    destruct (htmlEscapes_cases c2)
      as [[-> E] | [[-> E] | [[-> E] | [[-> E] | [[-> E] | (_ & _ & E)]]]]];
      rewrite E in H; escape_step H; discriminate H.
  - cbn [escapeHtml] in H.
    destruct (htmlEscapes_cases c1)
      as [[-> E] | [[-> E] | [[-> E] | [[-> E] | [[-> E] | (_ & _ & E)]]]]];
      rewrite E in H; escape_step H; discriminate H.
  - cbn [escapeHtml] in H.
    destruct (htmlEscapes_cases c1)
      as [[-> E1] | [[-> E1] | [[-> E1] | [[-> E1] | [[-> E1] | (N1 & _ & E1)]]]]];
      destruct (htmlEscapes_cases c2)
        as [[-> E2] | [[-> E2] | [[-> E2] | [[-> E2] | [[-> E2] | (N2 & _ & E2)]]]]];
      rewrite E1 in H; rewrite ?E2 in H; escape_step H;
      first
        [ discriminate H
        | injection H as H; f_equal; now apply IH
        | injection H as Hc H; subst; first [congruence | f_equal; now apply IH]
        | injection H; intros; subst; congruence ].
Qed.

(** ** The theorems at a sample output *)

Lemma extractMimeData_entry_witness :
  bundle_of (DisplayDataOutput
               [("text/plain", DataArray ["a"; "b"]);
                ("text/html", DataArray ["<b>"; "a"; "</b>"])])
    = Some [("text/plain", DataArray ["a"; "b"]);
            ("text/html", DataArray ["<b>"; "a"; "</b>"])] /\
  exists d,
    extractMimeData
      (DisplayDataOutput
         [("text/plain", DataArray ["a"; "b"]);
          ("text/html", DataArray ["<b>"; "a"; "</b>"])])
      "text/html"
    = Some (Entry d).
Proof.
  split; [reflexivity |].
  exact (proj2 (extractMimeData_entry (fun s => s)
                  (DisplayDataOutput
                     [("text/plain", DataArray ["a"; "b"]);
                      ("text/html", DataArray ["<b>"; "a"; "</b>"])])
                  _ "text/html" eq_refl) eq_refl).
Defined.

Lemma escapeHtml_no_markup_witness :
  In "a"%char (String.list_ascii_of_string (escapeHtml "<a>")) /\
  markup_char "a" = false.
Proof.
  assert (H : In "a"%char (String.list_ascii_of_string (escapeHtml "<a>")))
    by (vm_compute; tauto).
  split; [exact H | exact (escapeHtml_no_markup "<a>" "a" H)].
Defined.

Lemma escapeHtml_injective_witness :
  escapeHtml "a<b" = escapeHtml "a<b" /\ "a<b" = "a<b".
Proof.
  split; [reflexivity | exact (escapeHtml_injective "a<b" "a<b" eq_refl)].
Defined.

End OutputsSpec.

(* ===================================================================== *)
(** * Part VIII: properties of the built-in transformers *)
(* ===================================================================== *)

Module NotebookSpec.
Import Mime Outputs Notebook.

Local Open Scope string_scope.

(** ** removeOutputs *)

Lemma strip_strip (cell : Cell) : strip (strip cell) = strip cell.
Proof.
  unfold strip at 2 3.
  destruct (String.eqb (cellType cell) "code" &&
            (1 <? length (cell_children cell))%nat) eqn:E.
  - unfold strip. simpl. rewrite length_take.
    apply andb_true_iff in E as [_ E]. apply Nat.ltb_lt in E.
    replace (1 `min` length (cell_children cell)) with 1 by lia.
    now rewrite andb_false_r.
  - unfold strip. now rewrite E.
Qed.

Lemma strip_children (cell : Cell) :
  cellType (strip cell) = cellType cell /\
  metadata (strip cell) = metadata cell /\
  cell_children (strip cell)
  = if String.eqb (cellType cell) "code" then take 1 (cell_children cell)
    else cell_children cell.
Proof.
  unfold strip. destruct (String.eqb (cellType cell) "code"); simpl; auto.
  destruct (Nat.ltb_spec 1 (length (cell_children cell))); simpl; auto.
  repeat split. symmetry. apply take_ge. lia.
Qed.

Lemma removeOutputs_root (root : Root) :
  root_type root = "root" ->
  removeOutputs root = set_root_children root (map strip (root_children root)).
Proof. intros Htype. unfold removeOutputs. now rewrite Htype. Qed.

(** X19.  [removeOutputs] on a root keeps the cells, their order, kinds
    and metadata; a code cell is left with its first child only (with
    nothing if it had none) and a cell of another kind keeps all its
    children.  Running it again changes nothing, and on a node that is
    not a root it does nothing. *)
Theorem removeOutputs_keeps_first_child :
  forall root : Root,
    removeOutputs (removeOutputs root) = removeOutputs root /\
    (root_type root <> "root" -> removeOutputs root = root) /\
    (root_type root = "root" ->
     Forall2
       (fun before after =>
          cellType after = cellType before /\
          metadata after = metadata before /\
          cell_children after
          = if String.eqb (cellType before) "code"
            then take 1 (cell_children before)
            else cell_children before)
       (root_children root) (root_children (removeOutputs root))).
Proof.
  intros root. split_and!.
  - unfold removeOutputs at 2 3.
    destruct (String.eqb_spec (root_type root) "root") as [Htype | Htype]; simpl.
    + rewrite removeOutputs_root by exact Htype.
      unfold set_root_children. simpl. f_equal.
      rewrite map_map. apply map_ext. intros cell. apply strip_strip.
    + unfold removeOutputs.
      destruct (String.eqb_spec (root_type root) "root"); [congruence | reflexivity].
  - intros Htype. unfold removeOutputs.
    destruct (String.eqb_spec (root_type root) "root"); [congruence | reflexivity].
  - intros Htype. rewrite removeOutputs_root by exact Htype. simpl.
    induction (root_children root) as [| cell cells IH]; simpl; constructor.
    + apply strip_children.
    + exact IH.
Qed.

(** The scenario of the specification: a code cell with children
    [code, stream output, error output] is left with [code]. *)
Lemma removeOutputs_sample :
  map cell_children (root_children (removeOutputs sample_root))
  = [ [MarkdownNode "# Title"]; [CodeNode "1+1" (Some "python")] ].
Proof. reflexivity. Qed.

(** ** removeCellsByTag and extractCellsByTag *)

Lemma filter_sublist {A} (p : A -> bool) (l : list A) :
  sublist (List.filter p l) l.
Proof.
  induction l as [| x l IH]; simpl; [constructor |].
  destruct (p x); [now apply sublist_skip | now apply sublist_cons].
Qed.

Lemma filter_split {A} (p : A -> bool) (l : list A) :
  Permutation (List.filter (fun x => negb (p x)) l ++ List.filter p l) l.
Proof.
  induction l as [| x l IH]; simpl; [constructor |].
  destruct (p x); simpl.
  - apply Permutation_sym, Permutation_cons_app, Permutation_sym, IH.
  - now constructor.
Qed.

Lemma filter_twice {A} (p q : A -> bool) (l : list A) :
  List.filter q (List.filter p l) = List.filter (fun x => p x && q x) l.
Proof.
  induction l as [| x l IH]; simpl; [reflexivity |].
  destruct (p x); simpl; [| exact IH].
  destruct (q x); simpl; now rewrite IH.
Qed.

Lemma has_some_tag_app (tags1 tags2 : list string) (cell : Cell) :
  has_some_tag (tags1 ++ tags2) cell
  = has_some_tag tags1 cell || has_some_tag tags2 cell.
Proof. unfold has_some_tag. apply existsb_app. Qed.

Lemma filter_all {A} (l : list A) : List.filter (fun _ => true) l = l.
Proof. induction l as [| x l IH]; simpl; [reflexivity | now rewrite IH]. Qed.

Lemma filter_none {A} (l : list A) : List.filter (fun _ => false) l = [].
Proof. induction l as [| x l IH]; simpl; [reflexivity | exact IH]. Qed.

(** X20.  On a root, [removeCellsByTag] and [extractCellsByTag] with the
    same tags split the cells between them: each keeps its cells in
    their original order, every cell of the root is kept by exactly one
    of the two, the cells that [removeCellsByTag] keeps carry none of the
    tags and those that [extractCellsByTag] keeps carry one at least. *)
Theorem tag_transformers_split :
  forall (tag_list : list string) (root : Root),
    root_type root = "root" ->
    let removed := root_children (removeCellsByTag tag_list root) in
    let extracted := root_children (extractCellsByTag tag_list root) in
    sublist removed (root_children root) /\
    sublist extracted (root_children root) /\
    Permutation (removed ++ extracted) (root_children root) /\
    Forall (fun cell => has_some_tag tag_list cell = false) removed /\
    Forall (fun cell => has_some_tag tag_list cell = true) extracted.
Proof.
  intros tag_list root Htype. unfold removeCellsByTag, extractCellsByTag.
  rewrite Htype. simpl. split_and!.
  - apply filter_sublist.
  - apply filter_sublist.
  - apply filter_split.
  - apply List.Forall_forall. intros cell [_ H]%filter_In.
    now apply negb_true_iff.
  - apply List.Forall_forall. now intros cell [_ H]%filter_In.
Qed.

Lemma removeCellsByTag_root (tag_list : list string) (root : Root) :
  root_type root = "root" ->
  removeCellsByTag tag_list root
  = set_root_children root
      (List.filter (fun cell => negb (has_some_tag tag_list cell))
                   (root_children root)).
Proof. intros Htype. unfold removeCellsByTag. now rewrite Htype. Qed.

Lemma extractCellsByTag_root (tag_list : list string) (root : Root) :
  root_type root = "root" ->
  extractCellsByTag tag_list root
  = set_root_children root
      (List.filter (fun cell => has_some_tag tag_list cell)
                   (root_children root)).
Proof. intros Htype. unfold extractCellsByTag. now rewrite Htype. Qed.

Lemma removeCellsByTag_other (tag_list : list string) (root : Root) :
  root_type root <> "root" -> removeCellsByTag tag_list root = root.
Proof.
  intros Htype. unfold removeCellsByTag.
  destruct (String.eqb_spec (root_type root) "root"); [congruence | reflexivity].
Qed.

Lemma removeCellsByTag_twice (tags1 tags2 : list string) (root : Root) :
  root_type root = "root" ->
  removeCellsByTag tags2 (removeCellsByTag tags1 root)
  = set_root_children root
      (List.filter (fun cell => negb (has_some_tag tags1 cell) &&
                                negb (has_some_tag tags2 cell))
                   (root_children root)).
Proof.
  intros Htype.
  rewrite (removeCellsByTag_root tags1 root Htype).
  rewrite removeCellsByTag_root by exact Htype.
  unfold set_root_children. simpl. now rewrite filter_twice.
Qed.

(** X21.  Removing by one list of tags and then by another is removing
    by both lists at once, in either order; extracting from what
    [removeCellsByTag] left with the same tags leaves no cell; and with
    no tag at all [removeCellsByTag] changes nothing while
    [extractCellsByTag] leaves no cell. *)
Theorem tag_transformers_compose :
  forall (tags1 tags2 : list string) (root : Root),
    removeCellsByTag tags2 (removeCellsByTag tags1 root)
      = removeCellsByTag (tags1 ++ tags2) root /\
    removeCellsByTag tags2 (removeCellsByTag tags1 root)
      = removeCellsByTag tags1 (removeCellsByTag tags2 root) /\
    removeCellsByTag [] root = root /\
    (root_type root = "root" ->
     root_children (extractCellsByTag tags1 (removeCellsByTag tags1 root)) = [] /\
     root_children (extractCellsByTag [] root) = []).
Proof.
  intros tags1 tags2 root.
  destruct (String.eqb_spec (root_type root) "root") as [Htype | Htype].
  - split_and!.
    + rewrite removeCellsByTag_twice, removeCellsByTag_root by exact Htype.
      f_equal. apply filter_ext. intros cell.
      now rewrite has_some_tag_app, negb_orb.
    + rewrite !removeCellsByTag_twice by exact Htype.
      f_equal. apply filter_ext. intros cell. apply andb_comm.
    + rewrite removeCellsByTag_root by exact Htype.
      unfold has_some_tag. simpl. rewrite filter_all. now destruct root.
    + intros _. split.
      * rewrite (removeCellsByTag_root tags1 root Htype).
        rewrite extractCellsByTag_root by exact Htype. simpl.
        rewrite filter_twice.
        rewrite (filter_ext _ (fun _ => false)); [apply filter_none |].
        intros cell. apply andb_negb_l.
      * rewrite extractCellsByTag_root by exact Htype.
        unfold has_some_tag. simpl. apply filter_none.
  - rewrite (removeCellsByTag_other tags1 root Htype).
    rewrite (removeCellsByTag_other tags2 root Htype).
    rewrite (removeCellsByTag_other tags1 root Htype).
    rewrite (removeCellsByTag_other (tags1 ++ tags2) root Htype).
    rewrite (removeCellsByTag_other [] root Htype).
    split_and!; auto. congruence.
Qed.

(** ** The theorems at the sample notebook *)

Lemma tag_transformers_split_witness :
  root_type sample_root = "root" /\
  root_children (removeCellsByTag ["important"] sample_root)
    = [sample_markdown_cell] /\
  root_children (extractCellsByTag ["important"] sample_root)
    = [sample_code_cell] /\
  Permutation
    (root_children (removeCellsByTag ["important"] sample_root) ++
     root_children (extractCellsByTag ["important"] sample_root))
    (root_children sample_root).
Proof.
  split; [reflexivity |]. split; [reflexivity |]. split; [reflexivity |].
  exact (proj1 (proj2 (proj2
           (tag_transformers_split ["important"] sample_root eq_refl)))).
Defined.

End NotebookSpec.

(* ===================================================================== *)
(** * Part IX: properties of rendering *)
(* ===================================================================== *)

Module RenderingSpec.
Import Mime Outputs Rendering MimeSpec OutputsSpec.

Local Open Scope string_scope.

Lemma js_in_own (data : MIMEBundle) (key : string) :
  js_in key data = false -> own_entry data key = None.
Proof.
  unfold js_in. destruct (own_entry data key); [discriminate | reflexivity].
Qed.

Lemma extract_text_entry_absent (data : MIMEBundle) (key : string) :
  own_entry data key = None -> extract_text_entry data key = NoText.
Proof. unfold extract_text_entry. now intros ->. Qed.

(** X22.  A display-data or execute-result output for which hasHtml,
    hasMarkdown and hasText all answer false renders to the empty
    string, whatever else its bundle holds and whatever the options:
    an image alone is not rendered and no wrapper is written. *)
Theorem renderOutputToHtml_without_text :
  forall (markdownToHtml stripAnsi : string -> string)
         (output : Output) (data : MIMEBundle) (options : RenderOutputOptions),
    bundle_of output = Some data ->
    hasHtml output = false ->
    hasMarkdown output = false ->
    hasText output = false ->
    renderOutputToHtml markdownToHtml stripAnsi output options = Some "".
Proof.
  intros md strip output data options Hdata Hhtml Hmarkdown Htext.
  assert (Hcontent : bundle_content md data = Some "").
  { destruct output; simpl in *; try discriminate Hdata;
      injection Hdata as ->;
      apply js_in_own in Hhtml, Hmarkdown, Htext;
      unfold bundle_content, extractHtml, extractMarkdown, extractText;
      rewrite !extract_text_entry_absent by assumption; reflexivity. }
  destruct output; simpl in Hdata; try discriminate Hdata;
    injection Hdata as ->; unfold renderOutputToHtml; rewrite Hcontent;
    simpl; now rewrite andb_false_r.
Qed.

(** X23.  With wrapping switched off, a stream output and an error
    output render to text that holds no less-than, greater-than, double
    quote or apostrophe, whatever their text and traceback are and
    whether or not ANSI codes are kept. *)
Theorem renderOutputToHtml_unwrapped_markup_free :
  forall (markdownToHtml stripAnsi : string -> string)
         (output : Output) (options : RenderOutputOptions),
    wrap options = Some false ->
    bundle_of output = None ->
    exists html,
      renderOutputToHtml markdownToHtml stripAnsi output options = Some html /\
      markup_free html.
Proof.
  intros md strip output options Hwrap Hbundle.
  destruct output; simpl in Hbundle; try discriminate Hbundle;
    unfold renderOutputToHtml; rewrite Hwrap;
    eexists; (split; [reflexivity |]); intros c; apply escapeHtml_chars.
Qed.

(** ** The theorems at sample outputs *)

Lemma renderOutputToHtml_without_text_witness :
  hasImage image_output = true /\
  renderOutputToHtml (fun s => s) (fun s => s) image_output
    (mkRenderOutputOptions None None None) = Some "".
Proof.
  split; [reflexivity |].
  apply (renderOutputToHtml_without_text (fun s => s) (fun s => s) image_output
           [("image/png", DataString "iVBORw0KGgo=")]);
    reflexivity.
Defined.

Lemma renderOutputToHtml_unwrapped_markup_free_witness :
  exists html,
    renderOutputToHtml (fun s => s) (fun s => s)
      (StreamOutput "stdout" "<b>1 & 2</b>")
      (mkRenderOutputOptions (Some false) None None) = Some html /\
    markup_free html.
Proof.
  apply (renderOutputToHtml_unwrapped_markup_free (fun s => s) (fun s => s)
           (StreamOutput "stdout" "<b>1 & 2</b>")
           (mkRenderOutputOptions (Some false) None None));
    reflexivity.
Defined.

End RenderingSpec.
